(** * Raktar: recipe client
    Shallow embedding of the client-side logic of the recipe application:
    the timeout wrapper ([utils/timeout]), the API client ([utils/api.ts]),
    the favourites hook ([hooks/useFavourites.ts]) and the navigation and
    search-state cache of [App.tsx]. *)

From stdpp Require Import base list strings gmap pretty.

Local Open Scope string_scope.
Local Open Scope list_scope.

(** ** JavaScript values shared by the components *)

(** Error objects, by constructor.  The code itself only ever creates
    [new Error(message)]; the runtime rejects [fetch] with a [TypeError]
    (network failure) and [response.json()] with a [SyntaxError]. *)
Inductive JsError : Type :=
  | Error (message : string)
  | TypeError (message : string)
  | SyntaxError (message : string).

(** The outcome of a settled promise. *)
Inductive Result (A : Type) : Type :=
  | Ok (value : A)
  | Err (reason : JsError).
Arguments Ok {A} value.
Arguments Err {A} reason.

Definition is_ok {A} (r : Result A) : bool :=
  match r with Ok _ => true | Err _ => false end.

Definition is_err {A} (r : Result A) : bool := negb (is_ok r).

(** [p.then(f)] for an [f] that itself may throw: a rejection of [p] skips
    [f] and is passed on. *)
Definition and_then {A B} (p : Result A) (f : A → Result B) : Result B :=
  match p with
  | Ok a => f a
  | Err e => Err e
  end.

(** JavaScript truthiness of a string: every string but the empty one. *)
Definition truthy (s : string) : bool :=
  match s with
  | EmptyString => false
  | String _ _ => true
  end.

(** ** Timeout wrapper *)

Module Timeout.

(** The timer handle returned by [setTimeout]. *)
Inductive TimerState : Type := Armed | Fired | Cleared.

(** The closure state of one [timeout(fn, timeoutMs, timeoutMessage)] call:
    the returned promise, the [timedOut] flag and the [timer] handle.
    [opSettled] is the runtime's bookkeeping for the promise returned by
    [fn()] (its callbacks run at most once); [calls] counts how often the
    wrapper has invoked [resolve] or [reject]. *)
Record State (T : Type) : Type := mkState {
  promise : option (Result T);
  timedOut : bool;
  timer : TimerState;
  opSettled : bool;
  calls : nat
}.
Arguments mkState {T}.
Arguments promise {T}.
Arguments timedOut {T}.
Arguments timer {T}.
Arguments opSettled {T}.
Arguments calls {T}.

(** What the event loop can deliver to the wrapper. *)
Inductive Event (T : Type) : Type :=
  | TimerFires
  | OpResolves (data : T)
  | OpRejects (err : JsError).
Arguments TimerFires {T}.
Arguments OpResolves {T} data.
Arguments OpRejects {T} err.

Section Wrapper.
Context {T : Type}.

(** [resolve(v)] / [reject(e)] of the promise constructor: the first call
    settles the promise, later calls are ignored by the runtime. *)
Definition settle (o : Result T) (st : State T) : State T :=
  mkState (match promise st with None => Some o | Some old => Some old end)
          (timedOut st) (timer st) (opSettled st) (S (calls st)).

Definition resolve (data : T) : State T → State T := settle (Ok data).
Definition reject (err : JsError) : State T → State T := settle (Err err).

(** [clearTimeout(timer)]: disarms a pending timer, no effect otherwise. *)
Definition clearTimeout (st : State T) : State T :=
  mkState (promise st) (timedOut st)
          (match timer st with Armed => Cleared | t => t end)
          (opSettled st) (calls st).

(** State right after the executor has run: the timer is armed, [fn()] has
    been called and its promise is pending. *)
Definition start : State T := mkState None false Armed false 0.

(** The [setTimeout] callback. *)
Definition onTimer (timeoutMessage : string) (st : State T) : State T :=
  reject (Error timeoutMessage)
         (mkState (promise st) true (timer st) (opSettled st) (calls st)).

(** The [.then] callback. *)
Definition onThen (data : T) (st : State T) : State T :=
  if timedOut st then st else resolve data (clearTimeout st).

(** The [.catch] callback. *)
Definition onCatch (err : JsError) (st : State T) : State T :=
  if timedOut st then st else reject err (clearTimeout st).

(** One turn of the event loop.  A timer callback runs only while the timer
    is armed; the callbacks attached to [fn()] run for its first settlement
    only. *)
Definition deliver (timeoutMessage : string) (st : State T) (ev : Event T)
  : State T :=
  match ev with
  | TimerFires =>
      match timer st with
      | Armed =>
          onTimer timeoutMessage
            (mkState (promise st) (timedOut st) Fired (opSettled st) (calls st))
      | _ => st
      end
  | OpResolves data =>
      if opSettled st then st
      else onThen data
             (mkState (promise st) (timedOut st) (timer st) true (calls st))
  | OpRejects err =>
      if opSettled st then st
      else onCatch err
             (mkState (promise st) (timedOut st) (timer st) true (calls st))
  end.

(** [timeout(fn, timeoutMs, timeoutMessage)] observed after the event loop
    has delivered [evs], in that order. *)
Definition timeout (timeoutMessage : string) (evs : list (Event T)) : State T :=
  foldl (deliver timeoutMessage) start evs.

(** Nothing is left that could still act: the timer is no longer armed, and
    either the operation's callback has run or the [timedOut] flag is up. *)
Definition finished (st : State T) : Prop :=
  timer st ≠ Armed ∧ (opSettled st = true ∨ timedOut st = true).

End Wrapper.

End Timeout.

(** ** Recipe records *)

(** [IMeal], with the optional [userComment] member that [IFavourite] adds.
    Every [IFavourite] is an [IMeal] and the code moves objects between the
    two types without copying, so one record type carries both; an object
    that came from the API has no [userComment].  [slots] holds the keys
    covered by the index signature ([strIngredient1] ... [strMeasure20]). *)
Record IMeal : Type := mkMeal {
  idMeal : string;
  strMeal : string;
  strDrinkAlternate : option string;
  strCategory : string;
  strArea : string;
  strInstructions : string;
  strMealThumb : string;
  strTags : option string;
  strYoutube : string;
  slots : gmap string (option string);
  userComment : option string
}.

Abbreviation IFavourite := IMeal.

(** [{ ...fav, userComment: comment }] *)
Definition with_userComment (fav : IFavourite) (comment : string) : IFavourite :=
  mkMeal (idMeal fav) (strMeal fav) (strDrinkAlternate fav) (strCategory fav)
         (strArea fav) (strInstructions fav) (strMealThumb fav) (strTags fav)
         (strYoutube fav) (slots fav) (Some comment).

(** ** API client *)

Module Api.

Definition API_BASE : string := "https://www.themealdb.com/api/json/v1/1/".

(** What [response.json()] yields: a rejection when the body does not
    parse, otherwise the [meals] member, [null] or an array. *)
Inductive JsonBody : Type :=
  | InvalidJson (message : string)
  | MealsData (meals : option (list IMeal)).

Record Response : Type := mkResponse {
  ok : bool;
  statusText : string;
  json : JsonBody
}.

(** What one [fetch] call comes to. *)
Inductive FetchOutcome : Type :=
  | NetworkFailure (message : string)
  | Responded (response : Response).

Definition handleResponse (response : Response) : Result (list IMeal) :=
  if negb (ok response) then
    Err (Error ("API request failed: " +:+ statusText response))
  else
    match json response with
    | InvalidJson message => Err (SyntaxError message)
    | MealsData None => Ok []
    | MealsData (Some meals) => Ok meals
    end.

(** The client's effect is issuing requests.  A computation threads the
    list of URLs requested so far (oldest first) and yields the value its
    promise settles with. *)
Definition Client (A : Type) : Type := list string → A * list string.

Definition ret {A} (a : A) : Client A := λ log, (a, log).

Definition bind {A B} (m : Client A) (k : A → Client B) : Client B :=
  λ log, let (a, log') := m log in k a log'.

Notation "'let*' x ':=' m 'in' k" := (bind m (λ x, k))
  (at level 10, x name, m at level 100, k at level 200).

(** Runs [f] on every element in list order, as [array.map] with a callback
    that starts a request, or a counting loop that pushes promises. *)
Fixpoint traverse {A B} (f : A → Client B) (l : list A) : Client (list B) :=
  match l with
  | [] => ret []
  | a :: l' =>
      let* b := f a in
      let* bs := traverse f l' in
      ret (b :: bs)
  end.

(** [Promise.all]: the values in input order when every promise fulfils,
    a rejection as soon as one rejects.  Which rejection is forwarded
    depends on arrival order, which is not tracked here: the first one in
    input order is taken. *)
Fixpoint promise_all {A} (ps : list (Result A)) : Result (list A) :=
  match ps with
  | [] => Ok []
  | Err e :: _ => Err e
  | Ok a :: ps' =>
      match promise_all ps' with
      | Ok l => Ok (a :: l)
      | Err e => Err e
      end
  end.

Record SearchParams : Type := mkParams {
  name : string;
  ingredient : string;
  area : string
}.

Definition random_url : string := API_BASE +:+ "random.php".
Definition lookup_url (id : string) : string := API_BASE +:+ "lookup.php?i=" +:+ id.

(** The promise [fetch] returns, settled. *)
Definition respond (outcome : FetchOutcome) : Result Response :=
  match outcome with
  | NetworkFailure message => Err (TypeError message)
  | Responded response => Ok response
  end.

(** What the normalised answer of the server to one request is: the value
    [fetch(url).then(handleResponse)] settles with for that answer. *)
Definition meals_of (outcome : FetchOutcome) : Result (list IMeal) :=
  and_then (respond outcome) handleResponse.

Definition not_found_message (id : string) : string :=
  "Recipe with ID " +:+ id +:+ " not found.".

(** The body of [fetchRecipeById] after its [await]. *)
Definition first_or_not_found (id : string) (results : list IMeal) : Result IMeal :=
  match results with
  | [] => Err (Error (not_found_message id))
  | first :: _ => Ok first
  end.

(** The branch on the filter fields: the URL to request, or [None] for the
    early return through [fetchRandomRecipes]. *)
Definition search_url (params : SearchParams) : option string :=
  if truthy (name params) then
    Some (API_BASE +:+ "search.php?s=" +:+ name params)
  else if truthy (ingredient params) then
    Some (API_BASE +:+ "filter.php?i=" +:+ ingredient params)
  else if truthy (area params) then
    Some (API_BASE +:+ "filter.php?a=" +:+ area params)
  else None.

Section Backend.

(** [backend k url] is the server's answer to the request for [url] issued
    when [k] requests had been issued before it. *)
Variable backend : nat → string → FetchOutcome.

Definition fetch (url : string) : Client (Result Response) :=
  λ log, (respond (backend (List.length log) url), log ++ [url]).

(** [fetch(url).then(handleResponse)] *)
Definition fetch_meals (url : string) : Client (Result (list IMeal)) :=
  let* response := fetch url in
  ret (and_then response handleResponse).

(** [count] is a natural number, as at every call site (9 and 20). *)
Definition fetchRandomRecipes (count : nat) : Client (Result (list IMeal)) :=
  let* promises :=
    traverse (λ _ : nat, fetch_meals random_url) (seq 0 count) in
  ret (and_then (promise_all promises) (λ results, Ok (concat results))).

Definition fetchRecipeById (id : string) : Client (Result IMeal) :=
  let* results := fetch_meals (lookup_url id) in
  ret (and_then results (first_or_not_found id)).

Definition searchRecipes (params : SearchParams) : Client (Result (list IMeal)) :=
  match search_url params with
  | None => fetchRandomRecipes 9
  | Some url =>
      let* results := fetch_meals url in
      match results with
      | Err e => ret (Err e)
      | Ok results =>
          if truthy (ingredient params) || truthy (area params) then
            let* fullMeals :=
              traverse (λ lightMeal, fetchRecipeById (idMeal lightMeal)) results in
            ret (promise_all fullMeals)
          else ret (Ok results)
      end
  end.

End Backend.

(** *** Sample servers *)

Definition brown_stew : IMeal :=
  mkMeal "52940" "Brown Stew Chicken" None "Chicken" "Jamaican"
         "Squeeze lime over chicken and rub well." "brown-stew.jpg"
         (Some "Stew") "" ∅ None.

(** The abbreviated form a filter endpoint returns for the same recipe. *)
Definition brown_stew_light : IMeal :=
  mkMeal "52940" "Brown Stew Chicken" None "" "" "" "brown-stew.jpg" None "" ∅ None.

Definition answer_ok (meals : option (list IMeal)) : FetchOutcome :=
  Responded (mkResponse true "OK" (MealsData meals)).

(** A server that has nothing to return: every answer is [{meals: null}]. *)
Definition no_results_backend : nat → string → FetchOutcome :=
  λ _ _, answer_ok None.

(** A server that knows one recipe and answers every request. *)
Definition healthy_backend : nat → string → FetchOutcome :=
  λ _ url,
    if bool_decide (url = lookup_url "52940") ||
       bool_decide (url = API_BASE +:+ "search.php?s=chicken") ||
       bool_decide (url = random_url)
    then answer_ok (Some [brown_stew])
    else if bool_decide (url = API_BASE +:+ "filter.php?i=chicken")
    then answer_ok (Some [brown_stew_light])
    else answer_ok None.

(** The same server with its lookup endpoint down. *)
Definition lookup_down_backend : nat → string → FetchOutcome :=
  λ k url,
    if bool_decide (url = lookup_url "52940")
    then Responded (mkResponse false "Service Unavailable" (InvalidJson ""))
    else healthy_backend k url.

End Api.

(** ** Favourites hook *)

Module Favourites.

(** A function handed to [setFavourites]. *)
Definition Updater : Type := list IFavourite → list IFavourite.

(** [favourites.some((fav) => fav.idMeal === mealId)] *)
Definition isFavourite (favourites : list IFavourite) (mealId : string) : bool :=
  existsb (λ fav, bool_decide (idMeal fav = mealId)) favourites.

(** [addFavourite] tests the [favourites] of the render it belongs to and
    queues an updater only when the identifier is not in it. *)
Definition addFavourite (favourites : list IFavourite) (meal : IMeal)
  : option Updater :=
  if negb (isFavourite favourites (idMeal meal))
  then Some (λ prev, prev ++ [meal])
  else None.

Definition removeFavourite (mealId : string) : Updater :=
  λ prev, filter (λ fav, idMeal fav ≠ mealId) prev.

Definition addCommentToFavourite (mealId comment : string) : Updater :=
  λ prev,
    (λ fav, if bool_decide (idMeal fav = mealId)
            then with_userComment fav comment else fav) <$> prev.

(** The user actions the views emit. *)
Inductive Action : Type :=
  | Add (meal : IMeal)
  | Remove (mealId : string)
  | Comment (mealId comment : string).

(** One action handled by the hook: the callback of the current render
    runs, the updater it queued (if any) is applied to the state, and the
    hook renders again with the resulting list. *)
Definition perform (favourites : list IFavourite) (a : Action)
  : list IFavourite :=
  match a with
  | Add meal =>
      match addFavourite favourites meal with
      | Some update => update favourites
      | None => favourites
      end
  | Remove mealId => removeFavourite mealId favourites
  | Comment mealId comment => addCommentToFavourite mealId comment favourites
  end.

Definition run (favourites : list IFavourite) (actions : list Action)
  : list IFavourite :=
  foldl perform favourites actions.

(** The identifiers of a list, in order. *)
Definition ids (favourites : list IFavourite) : list string :=
  idMeal <$> favourites.

End Favourites.

(** ** Navigation *)

Module Navigation.

(** [currentPath] and [prevPath] of [App], and [window.location.hash] as
    last assigned. *)
Record State : Type := mkNav {
  currentPath : string;
  prevPath : option string;
  locationHash : string
}.

Definition ROOT : string := "#/".

(** [path.startsWith('#/recipe/')] *)
Definition is_detail (path : string) : bool := String.prefix "#/recipe/" path.

(** [useState(window.location.hash || '#/')], [useState(null)] *)
Definition initial (hash : string) : State :=
  mkNav (if truthy hash then hash else ROOT) None hash.

Definition navigate (path : string) (st : State) : State :=
  mkNav path
        (if is_detail path && negb (is_detail (currentPath st))
         then Some (currentPath st)
         else prevPath st)
        path.

Definition goBack (st : State) : State :=
  match prevPath st with
  | Some prev =>
      if truthy prev then mkNav prev None prev
      else mkNav ROOT (prevPath st) ROOT
  | None => mkNav ROOT (prevPath st) ROOT
  end.

(** What the views can ask of the navigation. *)
Inductive Step : Type :=
  | Navigate (path : string)
  | GoBack.

Definition step (st : State) (s : Step) : State :=
  match s with
  | Navigate path => navigate path st
  | GoBack => goBack st
  end.

(** Routes are hash strings such as [#/], [#/search] or [#/recipe/52940]:
    neither the current nor the saved route is the empty string. *)
Definition well_formed (st : State) : Prop :=
  currentPath st ≠ "" ∧ ∀ prev, prevPath st = Some prev → prev ≠ "".

(** What a saved route is never: a detail route. *)
Definition saved_plain (st : State) : Prop :=
  ∀ prev, prevPath st = Some prev → is_detail prev = false.

End Navigation.

(** ** Search-state cache *)

Module SearchState.

(** The values an [ISearchState] member can hold. *)
Inductive Value : Type :=
  | VUndefined
  | VNull
  | VBool (b : bool)
  | VString (s : string)
  | VMeals (meals : list IMeal).

(** The initial [searchState] of [App]. *)
Definition initialSearchState : gmap string Value :=
  {[ "name" := VString "";
     "ingredient" := VString "";
     "area" := VString "";
     "meals" := VMeals [];
     "loading" := VBool false;
     "error" := VNull;
     "isInitial" := VBool true ]}.

(** [{ ...prev, ...s }]: the members of [s], then those of [prev] that [s]
    does not have.  A [Partial<ISearchState>] is an object with some of the
    session's keys. *)
Definition setSearchState (s prev : gmap string Value) : gmap string Value :=
  s ∪ prev.

End SearchState.

(** ** Page selection *)

Module Router.

Inductive Page : Type :=
  | Home
  | Search
  | Favourites
  | RecipeDetail (mealId : option string)
  | NotFoundPage.

(** The character [/]. *)
Definition slash : Ascii.ascii := Ascii.ascii_of_nat 47.

(** [s.split(sep)] for a one-character separator: the pieces between the
    occurrences of [sep], empty pieces included. *)
Fixpoint split (sep : Ascii.ascii) (s : string) : list string :=
  match s with
  | EmptyString => [EmptyString]
  | String c s' =>
      if Ascii.eqb c sep then EmptyString :: split sep s'
      else match split sep s' with
           | [] => [String c EmptyString]
           | piece :: pieces => String c piece :: pieces
           end
  end.

(** [renderPage] of [App]; [None] stands for an [undefined] array
    element. *)
Definition renderPage (currentPath : string) : Page :=
  if Navigation.is_detail currentPath then
    RecipeDetail (split slash currentPath !! 2)
  else if bool_decide (currentPath = "#/") then Home
  else if bool_decide (currentPath = "#/search") then Search
  else if bool_decide (currentPath = "#/favourites") then Favourites
  else NotFoundPage.

(** The route [RecipeCard] and the favourites list navigate to. *)
Definition recipe_route (idMeal : string) : string := "#/recipe/" +:+ idMeal.

(** The characters of a string. *)
Fixpoint chars (s : string) : list Ascii.ascii :=
  match s with
  | EmptyString => []
  | String c s' => c :: chars s'
  end.

End Router.

(** ** Favourite button *)

Module FavouriteButton.
Import Favourites.

(** [handleClick]: the action it emits and the flag it hands to
    [onToggle]. *)
Definition handleClick (favourites : list IFavourite) (meal : IMeal)
  : Action * bool :=
  if isFavourite favourites (idMeal meal)
  then (Remove (idMeal meal), false)
  else (Add meal, true).

(** The favourites after one click on the button shown for [meal]. *)
Definition click (favourites : list IFavourite) (meal : IMeal)
  : list IFavourite :=
  perform favourites (fst (handleClick favourites meal)).

End FavouriteButton.

(** ** Search page *)

Module SearchPage.
Import SearchState.

Definition RANDOM_RECIPE_COUNT : nat := 20.
Definition timeoutMessage : string := "The request took too long.".

(** [err.message] *)
Definition message (err : JsError) : string :=
  match err with
  | Error m | TypeError m | SyntaxError m => m
  end.

(** The update both handlers start with. *)
Definition started : gmap string Value :=
  {[ "loading" := VBool true; "isInitial" := VBool false; "error" := VNull ]}.

(** The update of the [.then] callback. *)
Definition succeeded (data : list IMeal) : gmap string Value :=
  {[ "meals" := VMeals data; "error" := VNull; "loading" := VBool false ]}.

(** The update of the [.catch] callback, [fallback] being the text after
    [err.message ||]. *)
Definition failed (fallback : string) (err : JsError) : gmap string Value :=
  {[ "meals" := VMeals [];
     "error" := VString (if truthy (message err) then message err else fallback);
     "loading" := VBool false ]}.

(** The event the wrapped operation delivers when it settles. *)
Definition settlement {T} (operation : Result T) : Timeout.Event T :=
  match operation with
  | Ok data => Timeout.OpResolves data
  | Err err => Timeout.OpRejects err
  end.

(** [timeout(() => operation, REQUEST_TIMEOUT_MS, timeoutMessage)] once the
    operation has settled and the deadline has passed, with the deadline
    firing before or after the operation settles. *)
Definition guarded {T} (operation : Result T) (deadlineFirst : bool)
  : option (Result T) :=
  Timeout.promise
    (Timeout.timeout timeoutMessage
       (if deadlineFirst
        then [Timeout.TimerFires; settlement operation]
        else [settlement operation; Timeout.TimerFires])).

(** The [.then(...).catch(...)] attached to the guarded promise, applied to
    the session as it is when the promise settles. *)
Definition finish (fallback : string) (settled : option (Result (list IMeal)))
    (session : gmap string Value) : gmap string Value :=
  match settled with
  | Some (Ok data) => setSearchState (succeeded data) session
  | Some (Err err) => setSearchState (failed fallback err) session
  | None => session
  end.

Section Backend.
Variable backend : nat → string → Api.FetchOutcome.

(** [loadRandom], from the click to the settled session. *)
Definition loadRandom (deadlineFirst : bool) (session : gmap string Value)
  : Api.Client (gmap string Value) :=
  Api.bind (Api.fetchRandomRecipes backend RANDOM_RECIPE_COUNT)
    (λ operation,
       Api.ret (finish "Failed to load random" (guarded operation deadlineFirst)
                  (setSearchState started session))).

(** [handleSearch], from the submission to the settled session. *)
Definition handleSearch (params : Api.SearchParams) (deadlineFirst : bool)
    (session : gmap string Value) : Api.Client (gmap string Value) :=
  if negb (truthy (Api.name params)) && negb (truthy (Api.ingredient params))
     && negb (truthy (Api.area params))
  then loadRandom deadlineFirst session
  else
    Api.bind (Api.searchRecipes backend params)
      (λ operation,
         Api.ret (finish "Search failed" (guarded operation deadlineFirst)
                    (setSearchState started session))).

End Backend.

End SearchPage.

(** ** Recipe detail page *)

Module RecipeDetail.

Record State : Type := mkDetail {
  meal : option IMeal;
  loading : bool;
  error : option string
}.

Inductive View : Type :=
  | LoadingSpinner
  | ErrorMessage (text : string)
  | Detail (meal : IMeal).

(** The state once the [fetchRecipeById] promise of the effect has
    settled and its [then]/[catch]/[finally] callbacks have run. *)
Definition loaded (settled : Result IMeal) : State :=
  match settled with
  | Ok data => mkDetail (Some data) false None
  | Err err => mkDetail None false (Some (SearchPage.message err))
  end.

(** The three early returns of the component and its main view. *)
Definition render (st : State) : View :=
  if loading st then LoadingSpinner
  else
    match error st with
    | Some text =>
        if truthy text then ErrorMessage text
        else match meal st with
             | None => ErrorMessage "Recipe not found."
             | Some m => Detail m
             end
    | None =>
        match meal st with
        | None => ErrorMessage "Recipe not found."
        | Some m => Detail m
        end
    end.

Section Backend.
Variable backend : nat → string → Api.FetchOutcome.

(** The page for [mealId] after its lookup has settled. *)
Definition page (mealId : string) : Api.Client View :=
  Api.bind (Api.fetchRecipeById backend mealId)
    (λ settled, Api.ret (render (loaded settled))).

End Backend.

Section Ingredients.

(** [String.prototype.trim]. *)
Variable trim : string → string.

(** [m[key]] for a key of the index signature, with [undefined] and [null]
    both read as [None]. *)
Definition member (m : IMeal) (key : string) : option string :=
  match slots m !! key with
  | Some (Some text) => Some text
  | _ => None
  end.

(** One turn of the loop of [getIngredients]. *)
Definition push_ingredient (m : IMeal) (ingredients : list string) (i : nat)
  : list string :=
  match member m ("strIngredient" +:+ pretty i) with
  | Some ingredient =>
      if truthy ingredient && negb (bool_decide (trim ingredient = "")) then
        let measurePart :=
          match member m ("strMeasure" +:+ pretty i) with
          | Some measure => if truthy measure then trim measure else ""
          | None => ""
          end in
        ingredients ++ [trim (measurePart +:+ " " +:+ trim ingredient)]
      else ingredients
  | None => ingredients
  end.

Definition getIngredients (m : IMeal) : list string :=
  foldl (push_ingredient m) [] (seq 1 20).

(** Slot [i] holds an ingredient that is neither missing nor blank. *)
Definition listed (m : IMeal) (i : nat) : bool :=
  match member m ("strIngredient" +:+ pretty i) with
  | Some ingredient =>
      truthy ingredient && negb (bool_decide (trim ingredient = ""))
  | None => false
  end.

End Ingredients.

(** Removes leading and trailing spaces; stands in for [trim] on sample
    records. *)
Fixpoint drop_spaces (s : string) : string :=
  match s with
  | String c s' => if Ascii.eqb c (Ascii.ascii_of_nat 32) then drop_spaces s' else s
  | _ => s
  end.

Definition trim_spaces (s : string) : string :=
  String.rev (drop_spaces (String.rev (drop_spaces s))).

Definition pancakes : IMeal :=
  mkMeal "52854" "Pancakes" None "Dessert" "American" "Mix and fry."
         "pancakes.jpg" None ""
         {[ "strIngredient1" := Some "Flour"; "strMeasure1" := Some "100g ";
            "strIngredient2" := Some "  "; "strMeasure2" := Some "1 tbsp";
            "strIngredient3" := Some "Eggs"; "strMeasure3" := None;
            "strIngredient4" := None; "strMeasure4" := Some "2 tsp";
            "strIngredient21" := Some "Sugar" ]}
         None.

End RecipeDetail.

(** * Properties *)

(** ** Timeout wrapper *)

Section TimeoutFacts.
Import Timeout.
Context {T : Type}.
Implicit Types (st : State T) (ev : Event T) (evs : list (Event T)).

Lemma deliver_finished message st ev :
  finished st →
  let st' := deliver message st ev in
  finished st' ∧ promise st' = promise st ∧ calls st' = calls st ∧
  timer st' = timer st ∧ timedOut st' = timedOut st.
Proof.
  intros [Htimer Hdone]. unfold finished.
  destruct st as [p flag tm settled n]; simpl in *.
  destruct ev as [|data|err]; simpl.
  - destruct tm; simpl; try done.
  - destruct settled; simpl; [done|].
    destruct Hdone as [Hs | ->]; [done|]. unfold onThen; simpl. auto.
  - destruct settled; simpl; [done|].
    destruct Hdone as [Hs | ->]; [done|]. unfold onCatch; simpl. auto.
Qed.

Lemma run_finished message evs st :
  finished st →
  let st' := foldl (deliver message) st evs in
  promise st' = promise st ∧ calls st' = calls st ∧
  timer st' = timer st ∧ timedOut st' = timedOut st.
Proof.
  revert st. induction evs as [|ev evs IH]; intros st Hfin; simpl; [done|].
  destruct (deliver_finished message st ev Hfin) as (Hfin' & Hp & Hc & Ht & Hf).
  destruct (IH _ Hfin') as (-> & -> & -> & ->). done.
Qed.

(** C1. The returned promise is pending until the first event and is
    settled by that event alone, with one single call to [resolve] or
    [reject] whatever is delivered afterwards: when the deadline fires
    first the caller observes the timeout error with the given message,
    and a later outcome of the operation is dropped; when the operation
    settles first the timer is cleared, its callback never runs, and the
    caller observes the operation's own outcome. *)
Theorem timeout_single_settlement (timeoutMessage : string) evs :
  promise (timeout (T:=T) timeoutMessage []) = None ∧
  (let st := timeout timeoutMessage (TimerFires :: evs) in
   promise st = Some (Err (Error timeoutMessage)) ∧ calls st = 1) ∧
  (∀ data,
     let st := timeout timeoutMessage (OpResolves data :: evs) in
     promise st = Some (Ok data) ∧ calls st = 1 ∧
     timer st = Cleared ∧ timedOut st = false) ∧
  (∀ err,
     let st := timeout timeoutMessage (OpRejects err :: evs) in
     promise st = Some (Err err) ∧ calls st = 1 ∧
     timer st = Cleared ∧ timedOut st = false).
Proof.
  split; [done|]. unfold timeout. simpl.
  split; [|split]; intros.
  - edestruct (run_finished timeoutMessage evs) as (-> & -> & _);
      [|done]. split; simpl; auto.
  - edestruct (run_finished timeoutMessage evs) as (-> & -> & -> & ->);
      [|done]. split; simpl; auto.
  - edestruct (run_finished timeoutMessage evs) as (-> & -> & -> & ->);
      [|done]. split; simpl; auto.
Qed.

End TimeoutFacts.

(** ** API client *)

Section PromiseAll.
Import Api.
Context {A : Type}.
Implicit Types (ps : list (Result A)) (l : list A).

Lemma promise_all_Ok ps l : promise_all ps = Ok l ↔ ps = Ok <$> l.
Proof.
  revert l. induction ps as [|[a|e] ps IH]; intros l; simpl.
  - split; [intros [= <-]; done | by destruct l].
  - destruct (promise_all ps) as [l'|e'] eqn:Hall.
    + split.
      * intros [= <-]. simpl. f_equal. by apply IH.
      * destruct l as [|a' l'']; intros [= <- Hps]. by apply IH in Hps as [= ->].
    + split; [done|]. destruct l as [|a' l'']; intros [= <- Hps].
      by apply IH in Hps.
  - split; [done | by destruct l].
Qed.

Lemma promise_all_Err ps :
  is_err (promise_all ps) = true ↔ ∃ i e, ps !! i = Some (Err e).
Proof.
  induction ps as [|[a|e] ps IH]; simpl.
  - split; [done | by intros (i & e & ?)].
  - transitivity (is_err (promise_all ps) = true).
    { by destruct (promise_all ps). }
    rewrite IH. split.
    + intros (i & e & Hi). by exists (S i), e.
    + intros ([|i] & e & Hi); [done | by exists i, e].
  - split; [intros _; by exists 0, e | done].
Qed.

Lemma promise_all_length ps l : promise_all ps = Ok l → length l = length ps.
Proof. intros ->%promise_all_Ok. by rewrite length_fmap. Qed.

End PromiseAll.

Section ApiFacts.
Import Api.
Variable backend : nat → string → FetchOutcome.

Lemma fetch_meals_run url log :
  fetch_meals backend url log =
    (meals_of (backend (List.length log) url), log ++ [url]).
Proof. done. Qed.

Lemma fetchRecipeById_run id log :
  fetchRecipeById backend id log =
    (and_then (meals_of (backend (List.length log) (lookup_url id)))
              (first_or_not_found id),
     log ++ [lookup_url id]).
Proof. done. Qed.

(** A traversal whose callback issues exactly one request per element
    issues them in list order; element [i] gets the answer to request
    number [length log + i]. *)
Lemma traverse_run {A B} (f : A → Client B) (url : A → string)
    (settled : nat → A → B) :
  (∀ a log, f a log = (settled (List.length log) a, log ++ [url a])) →
  ∀ l log,
    traverse f l log =
      (imap (λ i a, settled (List.length log + i) a) l, log ++ (url <$> l)).
Proof.
  intros Hf l. induction l as [|a l IH]; intros log.
  - simpl. by rewrite app_nil_r.
  - simpl. unfold bind at 1. rewrite Hf. unfold bind at 1. rewrite IH.
    unfold ret. f_equal.
    + rewrite Nat.add_0_r. f_equal. apply imap_ext. intros i x _. simpl.
      rewrite length_app. simpl. f_equal. lia.
    + by rewrite <- app_assoc.
Qed.

Lemma fetchRandomRecipes_run count log :
  fetchRandomRecipes backend count log =
    (and_then
       (promise_all
          ((λ i, meals_of (backend (List.length log + i) random_url))
             <$> seq 0 count))
       (λ results, Ok (concat results)),
     log ++ replicate count random_url).
Proof.
  unfold fetchRandomRecipes, bind.
  rewrite (traverse_run _ (λ _, random_url)
             (λ k _, meals_of (backend k random_url)))
    by (intros; apply fetch_meals_run).
  unfold ret. f_equal.
  - f_equal. f_equal.
    rewrite (imap_seq_0 (seq 0 count)
               (λ i, meals_of (backend (List.length log + i) random_url))).
    by rewrite length_seq.
  - f_equal. clear. generalize 0. induction count as [|n IH]; intros k; simpl;
      [done | by rewrite IH].
Qed.

Lemma truthy_true s : truthy s = true ↔ s ≠ "".
Proof. by destruct s. Qed.

Lemma truthy_false s : truthy s = false ↔ s = "".
Proof. by destruct s. Qed.

(** The messages of the two errors the client creates never coincide. *)
Lemma transport_error_distinct status id :
  Error ("API request failed: " +:+ status) ≠ Error (not_found_message id).
Proof. unfold not_found_message. simpl. intros [=]. Qed.

Lemma meals_of_error outcome e :
  meals_of outcome = Err e →
  (∃ message, e = TypeError message) ∨
  (∃ message, e = SyntaxError message) ∨
  (∃ response, outcome = Responded response ∧ ok response = false ∧
               e = Error ("API request failed: " +:+ statusText response)).
Proof.
  unfold meals_of, handleResponse.
  destruct outcome as [message|[[] status body]]; simpl.
  - intros [= <-]. left. by exists message.
  - destruct body as [message|[meals|]]; intros [= <-].
    right; left. by exists message.
  - intros [= <-]. right; right. by eexists.
Qed.

Lemma concat_singletons {A} (lists : list (list A)) :
  (∀ i l, lists !! i = Some l → List.length l = 1) →
  List.length (concat lists) = List.length lists.
Proof.
  induction lists as [|l lists IH]; intros Hone; simpl; [done|].
  rewrite length_app, (Hone 0 l), IH; [done| |done].
  intros i l' Hi. by apply (Hone (S i)).
Qed.

(** C2, amended.  Fetching [count] random records issues [count] requests
    to the random endpoint and then either fails, exactly when at least one
    of the individual fetches fails, or succeeds with the concatenation, in
    request order, of all [count] normalised answers; the result has
    exactly [count] records whenever every answer carries exactly one
    record. *)
Theorem fetchRandomRecipes_all_or_nothing (count : nat) (log : list string) :
  let answer := λ i, meals_of (backend (List.length log + i) random_url) in
  let out := fetchRandomRecipes backend count log in
  snd out = log ++ replicate count random_url ∧
  (is_err (fst out) = true ↔ ∃ i, i < count ∧ is_err (answer i) = true) ∧
  (∀ meals, fst out = Ok meals →
     ∃ lists, answer <$> seq 0 count = Ok <$> lists ∧ meals = concat lists) ∧
  (∀ meals, fst out = Ok meals →
     (∀ i, i < count → ∃ meal, answer i = Ok [meal]) →
     List.length meals = count).
Proof.
  intros answer out. subst out. rewrite fetchRandomRecipes_run. simpl.
  fold answer. set (answers := answer <$> seq 0 count).
  assert (Hsucc : ∀ meals,
            and_then (promise_all answers) (λ results, Ok (concat results))
              = Ok meals →
            ∃ lists, answers = Ok <$> lists ∧ meals = concat lists).
  { intros meals. destruct (promise_all answers) as [lists|e] eqn:Hall;
      simpl; [|done].
    intros [= <-]. exists lists. split; [by apply promise_all_Ok | done]. }
  split; [done|]. split; [|split].
  - transitivity (is_err (promise_all answers) = true).
    { by destruct (promise_all answers). }
    rewrite promise_all_Err. unfold answers. split.
    + intros (i & e & Hi). rewrite list_lookup_fmap in Hi.
      destruct (seq 0 count !! i) as [j|] eqn:Hj; [|done].
      apply lookup_seq in Hj as [-> Hlt]. simpl in Hi.
      exists i. split; [done|]. injection Hi as ->. done.
    + intros (i & Hlt & Hi). destruct (answer i) as [l|e] eqn:Hans; [done|].
      exists i, e. rewrite list_lookup_fmap.
      rewrite (proj2 (lookup_seq 0 count i i)) by done. simpl. by rewrite Hans.
  - done.
  - intros meals Hok Hone. destruct (Hsucc meals Hok) as (lists & Hl & ->).
    assert (Hlen : List.length lists = count).
    { apply (f_equal List.length) in Hl. unfold answers in Hl.
      rewrite !length_fmap, length_seq in Hl. done. }
    rewrite concat_singletons; [done|].
    intros i l Hi.
    assert (Hans : answers !! i = Some (Ok l)).
    { rewrite Hl, list_lookup_fmap, Hi. done. }
    unfold answers in Hans. rewrite list_lookup_fmap in Hans.
    destruct (seq 0 count !! i) as [j|] eqn:Hj; [|done].
    apply lookup_seq in Hj as [-> Hlt]. simpl in Hans.
    destruct (Hone i Hlt) as [meal Hm]. rewrite Hm in Hans.
    by injection Hans as <-.
Qed.

(** C5. A lookup by identifier fails with the not-found error exactly when
    the normalised result list of the server is empty, and returns the first
    element of that list otherwise; a response with a non-success status
    fails with the request-failed error, which is never a not-found
    error. *)
Theorem fetchRecipeById_not_found_iff (id : string) (log : list string) :
  let answer := backend (List.length log) (lookup_url id) in
  let out := fetchRecipeById backend id log in
  snd out = log ++ [lookup_url id] ∧
  (fst out = Err (Error (not_found_message id)) ↔ meals_of answer = Ok []) ∧
  (∀ first rest, meals_of answer = Ok (first :: rest) → fst out = Ok first) ∧
  (∀ response, answer = Responded response → ok response = false →
     fst out = Err (Error ("API request failed: " +:+ statusText response)) ∧
     ∀ id', fst out ≠ Err (Error (not_found_message id'))).
Proof.
  intros answer out. subst out. rewrite fetchRecipeById_run. simpl.
  fold answer. split; [done|]. split; [|split].
  - destruct (meals_of answer) as [[|first rest]|e] eqn:Hans; simpl.
    + done.
    + split; done.
    + split; [|done]. intros [= ->].
      apply meals_of_error in Hans as [[m [=]]|[[m [=]]|(r & _ & _ & Hr)]].
      by apply eq_sym, transport_error_distinct in Hr.
  - by intros first rest ->.
  - intros response Hresp Hok. unfold meals_of. rewrite Hresp. simpl.
    unfold handleResponse. rewrite Hok. simpl. split; [done|].
    intros id' Heq. apply (transport_error_distinct (statusText response) id').
    congruence.
Qed.

(** The request a search starts with is chosen by the first non-empty
    field in the order name, ingredient, area. *)
Lemma search_url_priority (params : SearchParams) :
  (name params ≠ "" →
   search_url params = Some (API_BASE +:+ "search.php?s=" +:+ name params)) ∧
  (name params = "" → ingredient params ≠ "" →
   search_url params = Some (API_BASE +:+ "filter.php?i=" +:+ ingredient params)) ∧
  (name params = "" → ingredient params = "" → area params ≠ "" →
   search_url params = Some (API_BASE +:+ "filter.php?a=" +:+ area params)) ∧
  (name params = "" → ingredient params = "" → area params = "" →
   search_url params = None).
Proof.
  unfold search_url. destruct params as [n i a]; simpl.
  destruct n, i, a; simpl; repeat split; done.
Qed.

(** With all three fields empty the search is the random fetch of nine
    records. *)
Lemma searchRecipes_all_empty (log : list string) :
  searchRecipes backend (mkParams "" "" "") log = fetchRandomRecipes backend 9 log.
Proof. done. Qed.

(** A search by name alone returns the answer of the search endpoint as it
    is, after that one request. *)
Lemma searchRecipes_name_only (n : string) (log : list string) :
  n ≠ "" →
  searchRecipes backend (mkParams n "" "") log =
    (meals_of (backend (List.length log) (API_BASE +:+ "search.php?s=" +:+ n)),
     log ++ [API_BASE +:+ "search.php?s=" +:+ n]).
Proof.
  intros Hn%truthy_true. unfold searchRecipes, search_url. simpl.
  rewrite Hn. unfold bind. rewrite fetch_meals_run.
  by destruct (meals_of _).
Qed.

(** [searchRecipes] unfolded into the requests it issues and the value it
    settles with. *)
Lemma searchRecipes_run (params : SearchParams) (log : list string) :
  searchRecipes backend params log =
    match search_url params with
    | None => fetchRandomRecipes backend 9 log
    | Some url =>
        match meals_of (backend (List.length log) url) with
        | Err e => (Err e, log ++ [url])
        | Ok results =>
            if truthy (ingredient params) || truthy (area params) then
              (promise_all
                 (imap (λ i lightMeal,
                          and_then
                            (meals_of
                               (backend (List.length (log ++ [url]) + i)
                                        (lookup_url (idMeal lightMeal))))
                            (first_or_not_found (idMeal lightMeal)))
                       results),
               (log ++ [url]) ++ (lookup_url ∘ idMeal <$> results))
            else (Ok results, log ++ [url])
        end
    end.
Proof.
  unfold searchRecipes. destruct (search_url params) as [url|]; [|done].
  unfold bind at 1. rewrite fetch_meals_run.
  destruct (meals_of _) as [results|e]; [|done].
  destruct (truthy (ingredient params) || truthy (area params)); [|done].
  unfold bind, ret.
  by rewrite (traverse_run _ (lookup_url ∘ idMeal)
                (λ k a, and_then (meals_of (backend k (lookup_url (idMeal a))))
                                 (first_or_not_found (idMeal a))))
    by (intros; apply fetchRecipeById_run).
Qed.

(** C4. A search whose name is empty and whose ingredient or area is not
    first requests the abbreviated list from the filter endpoint and then
    calls [fetchRecipeById] once per abbreviated entry, in list order: the
    request for entry [i] is [lookup.php?i=] followed by the identifier
    of that entry.  It fails exactly when one of these per-entry fetches
    fails, that is when the server's answer to one of the lookups is an
    error or brings no record; otherwise its result has the length of the
    abbreviated list and holds, at every position, the first record of
    the server's answer to the lookup of that position, not the
    abbreviated entry. *)
Theorem searchRecipes_filter_full_records (params : SearchParams)
    (log : list string) :
  name params = "" →
  ingredient params ≠ "" ∨ area params ≠ "" →
  let url :=
    API_BASE +:+ (if truthy (ingredient params)
                  then "filter.php?i=" +:+ ingredient params
                  else "filter.php?a=" +:+ area params) in
  let out := searchRecipes backend params log in
  (∀ e, meals_of (backend (List.length log) url) = Err e →
        out = (Err e, log ++ [url])) ∧
  (∀ light, meals_of (backend (List.length log) url) = Ok light →
     let entry := λ i (lightMeal : IMeal),
       fst (fetchRecipeById backend (idMeal lightMeal)
              (log ++ url :: (lookup_url ∘ idMeal <$> take i light))) in
     let answer := λ i (lightMeal : IMeal),
       meals_of (backend (List.length log + 1 + i)
                   (API_BASE +:+ "lookup.php?i=" +:+ idMeal lightMeal)) in
     snd out =
       log ++ url :: ((λ lightMeal : IMeal,
                         API_BASE +:+ "lookup.php?i=" +:+ idMeal lightMeal)
                        <$> light) ∧
     (is_err (fst out) = true ↔
        ∃ i lightMeal, light !! i = Some lightMeal ∧
                       is_err (entry i lightMeal) = true) ∧
     (is_err (fst out) = true ↔
        ∃ i lightMeal, light !! i = Some lightMeal ∧
                       ((∃ e, answer i lightMeal = Err e) ∨
                        answer i lightMeal = Ok [])) ∧
     (∀ full, fst out = Ok full →
        List.length full = List.length light ∧
        ∀ i lightMeal, light !! i = Some lightMeal →
          ∃ meal rest,
            full !! i = Some meal ∧
            entry i lightMeal = Ok meal ∧
            answer i lightMeal = Ok (meal :: rest))).
Proof.
  intros Hname Hfilter url out.
  assert (Hurl : search_url params = Some url).
  { destruct (search_url_priority params) as (_ & Hi & Ha & _). subst url.
    destruct (truthy (ingredient params)) eqn:Hing.
    - apply Hi; [done | by apply truthy_true].
    - apply truthy_false in Hing. apply Ha; [done..|]. by destruct Hfilter. }
  assert (Hguard : truthy (ingredient params) || truthy (area params) = true).
  { apply orb_true_iff. destruct Hfilter as [H|H]; [left|right];
      by apply truthy_true. }
  assert (Hrun : out =
            match meals_of (backend (List.length log) url) with
            | Err e => (Err e, log ++ [url])
            | Ok light =>
                (promise_all
                   (imap (λ i a,
                            and_then
                              (meals_of (backend (List.length (log ++ [url]) + i)
                                                 (lookup_url (idMeal a))))
                              (first_or_not_found (idMeal a))) light),
                 (log ++ [url]) ++ (lookup_url ∘ idMeal <$> light))
            end).
  { subst out. rewrite searchRecipes_run, Hurl.
    destruct (meals_of _); [by rewrite Hguard | done]. }
  clearbody out. subst out. split.
  { by intros e ->. }
  intros light ->. intros entry answer. simpl.
  set (settled := imap _ light).
  assert (Hanswer : ∀ i lightMeal, light !! i = Some lightMeal →
            entry i lightMeal
              = and_then (answer i lightMeal)
                         (first_or_not_found (idMeal lightMeal))).
  { intros i lightMeal Hi. unfold entry, answer.
    rewrite fetchRecipeById_run. simpl. unfold lookup_url.
    do 3 f_equal. rewrite length_app. simpl.
    rewrite length_fmap, length_take. apply lookup_lt_Some in Hi. lia. }
  assert (Hentry : ∀ i lightMeal, light !! i = Some lightMeal →
            settled !! i = Some (entry i lightMeal)).
  { intros i lightMeal Hi. rewrite (Hanswer _ _ Hi). unfold settled, answer.
    rewrite list_lookup_imap, Hi. simpl. unfold lookup_url.
    do 4 f_equal. rewrite length_app. simpl. lia. }
  assert (Hlen : List.length settled = List.length light).
  { unfold settled. apply length_imap. }
  assert (Hfails : is_err (promise_all settled) = true ↔
            ∃ i lightMeal, light !! i = Some lightMeal ∧
                           is_err (entry i lightMeal) = true).
  { rewrite promise_all_Err. split.
    + intros (i & e & Hi).
      destruct (light !! i) as [lightMeal|] eqn:Hl.
      * exists i, lightMeal. split; [done|].
        rewrite (Hentry _ _ Hl) in Hi. by injection Hi as ->.
      * apply lookup_ge_None in Hl. apply lookup_lt_Some in Hi. lia.
    + intros (i & lightMeal & Hl & Herr).
      destruct (entry i lightMeal) as [meal|e] eqn:He; [done|].
      exists i, e. by rewrite (Hentry _ _ Hl), He. }
  split; [|split; [|split]].
  - by rewrite <- app_assoc.
  - exact Hfails.
  - rewrite Hfails. split.
    + intros (i & lightMeal & Hl & Herr). exists i, lightMeal.
      split; [done|]. rewrite (Hanswer _ _ Hl) in Herr.
      destruct (answer i lightMeal) as [[|first rest]|e]; simpl in Herr.
      * by right.
      * done.
      * left. by exists e.
    + intros (i & lightMeal & Hl & Hbad). exists i, lightMeal.
      split; [done|]. rewrite (Hanswer _ _ Hl).
      by destruct Hbad as [[e ->]| ->].
  - intros full Hfull. split.
    + apply promise_all_length in Hfull. by rewrite Hfull.
    + intros i lightMeal Hl. apply promise_all_Ok in Hfull.
      pose proof (Hentry _ _ Hl) as Hs. rewrite Hfull, list_lookup_fmap in Hs.
      destruct (full !! i) as [meal|]; [|done].
      injection Hs as Hs. symmetry in Hs.
      pose proof Hs as Hhead. rewrite (Hanswer _ _ Hl) in Hhead.
      destruct (answer i lightMeal) as [[|first rest]|e]; simpl in Hhead;
        try done.
      injection Hhead as ->. by exists meal, rest.
Qed.

End ApiFacts.

Section ApiSamples.
Import Api.

(** C2 as stated fails on a server that returns the null marker: three
    random records are requested, every fetch succeeds, and the result is a
    success with no record at all. *)
Lemma fetchRandomRecipes_short_success :
  fetchRandomRecipes no_results_backend 3 [] =
    (Ok [], [random_url; random_url; random_url]) ∧
  ¬ (is_err (fst (fetchRandomRecipes no_results_backend 3 [])) = true ∨
     ∃ meals, fst (fetchRandomRecipes no_results_backend 3 []) = Ok meals ∧
              List.length meals = 3).
Proof.
  split; [reflexivity|]. intros [Herr|(meals & Hok & Hlen)].
  - vm_compute in Herr. discriminate.
  - vm_compute in Hok. injection Hok as <-. discriminate.
Qed.

Lemma fetchRandomRecipes_all_or_nothing_witness :
  ∃ meals, fst (fetchRandomRecipes healthy_backend 3 []) = Ok meals ∧
           List.length meals = 3.
Proof.
  exists [brown_stew; brown_stew; brown_stew].
  assert (Hok : fst (fetchRandomRecipes healthy_backend 3 [])
                = Ok [brown_stew; brown_stew; brown_stew]) by reflexivity.
  split; [exact Hok|].
  apply (proj2 (proj2 (proj2
           (fetchRandomRecipes_all_or_nothing healthy_backend 3 []))) _ Hok).
  intros i Hi. exists brown_stew. reflexivity.
Defined.

Lemma fetchRecipeById_not_found_iff_witness :
  fst (fetchRecipeById healthy_backend "52940" []) = Ok brown_stew ∧
  fst (fetchRecipeById no_results_backend "52940" [])
    = Err (Error (not_found_message "52940")) ∧
  fst (fetchRecipeById lookup_down_backend "52940" [])
    ≠ Err (Error (not_found_message "52940")).
Proof.
  split; [|split].
  - apply (proj1 (proj2 (proj2
             (fetchRecipeById_not_found_iff healthy_backend "52940" [])))
             brown_stew []).
    reflexivity.
  - apply (proj1 (proj2
             (fetchRecipeById_not_found_iff no_results_backend "52940" []))).
    reflexivity.
  - apply (proj2 (proj2 (proj2
             (fetchRecipeById_not_found_iff lookup_down_backend "52940" [])))
             (mkResponse false "Service Unavailable" (InvalidJson ""))).
    + reflexivity.
    + reflexivity.
Defined.

Lemma searchRecipes_filter_full_records_witness :
  fst (searchRecipes healthy_backend (mkParams "" "chicken" "") [])
    = Ok [brown_stew] ∧
  (∃ rest,
     meals_of (healthy_backend 1
                 "https://www.themealdb.com/api/json/v1/1/lookup.php?i=52940")
       = Ok (brown_stew :: rest)) ∧
  snd (searchRecipes healthy_backend (mkParams "" "chicken" "") []) =
    ["https://www.themealdb.com/api/json/v1/1/filter.php?i=chicken";
     "https://www.themealdb.com/api/json/v1/1/lookup.php?i=52940"] ∧
  is_err (fst (searchRecipes lookup_down_backend (mkParams "" "chicken" "") []))
    = true.
Proof.
  assert (Hfull : fst (searchRecipes healthy_backend
                         (mkParams "" "chicken" "") [])
                  = Ok [brown_stew]) by reflexivity.
  pose proof (searchRecipes_filter_full_records healthy_backend
                (mkParams "" "chicken" "") [] eq_refl
                (or_introl (λ H : "chicken" = "", match H with end
                   : False))) as Hhealthy.
  pose proof (searchRecipes_filter_full_records lookup_down_backend
                (mkParams "" "chicken" "") [] eq_refl
                (or_introl (λ H : "chicken" = "", match H with end
                   : False))) as Hdown.
  split; [exact Hfull|]. split; [|split].
  - destruct (proj2 (proj2 (proj2 (proj2
                 (proj2 Hhealthy [brown_stew_light] eq_refl)))
                       [brown_stew] Hfull) 0 brown_stew_light eq_refl)
      as (meal & rest & Hat & _ & Hanswer).
    exists rest. injection Hat as <-. exact Hanswer.
  - apply (proj1 (proj2 Hhealthy [brown_stew_light] eq_refl)).
  - apply (proj2 (proj1 (proj2 (proj2
             (proj2 Hdown [brown_stew_light] eq_refl))))).
    exists 0, brown_stew_light. split; [reflexivity|].
    left. eexists. reflexivity.
Defined.

(** C3 at the input [{name: "chicken", ingredient: "beef", area: "Italy"}]:
    the request sent first is the name search, as for the name alone, but
    the two other fields are not ignored.  Because one of them is
    non-empty the search goes on to look up every result by identifier, so
    it issues a request the name-only search does not issue, and it fails
    when that lookup fails although the name-only search succeeds. *)
Theorem searchRecipes_name_not_isolated :
  searchRecipes lookup_down_backend (mkParams "chicken" "" "") [] =
    (Ok [brown_stew], [API_BASE +:+ "search.php?s=chicken"]) ∧
  searchRecipes lookup_down_backend (mkParams "chicken" "beef" "Italy") [] =
    (Err (Error "API request failed: Service Unavailable"),
     [API_BASE +:+ "search.php?s=chicken"; lookup_url "52940"]) ∧
  searchRecipes healthy_backend (mkParams "chicken" "beef" "Italy") [] =
    (Ok [brown_stew],
     [API_BASE +:+ "search.php?s=chicken"; lookup_url "52940"]).
Proof. repeat split; reflexivity. Qed.

End ApiSamples.

(** ** Favourites hook *)

Section FavouritesFacts.
Import Favourites.
Implicit Types (favourites : list IFavourite) (meal : IMeal) (a : Action).

Lemma isFavourite_true favourites mealId :
  isFavourite favourites mealId = true ↔ mealId ∈ ids favourites.
Proof.
  unfold isFavourite, ids. rewrite existsb_exists, list_elem_of_fmap.
  split.
  - intros (fav & Hin & Hid). exists fav.
    apply bool_decide_eq_true in Hid. by apply list_elem_of_In in Hin.
  - intros (fav & -> & Hin). exists fav.
    split; [by apply list_elem_of_In | by apply bool_decide_eq_true].
Qed.

Lemma isFavourite_false favourites mealId :
  isFavourite favourites mealId = false ↔ mealId ∉ ids favourites.
Proof. rewrite <- isFavourite_true. by destruct (isFavourite _ _). Qed.

Lemma perform_add_present favourites meal :
  isFavourite favourites (idMeal meal) = true →
  perform favourites (Add meal) = favourites.
Proof. intros H. simpl. unfold addFavourite. by rewrite H. Qed.

Lemma perform_add_absent favourites meal :
  isFavourite favourites (idMeal meal) = false →
  perform favourites (Add meal) = favourites ++ [meal].
Proof. intros H. simpl. unfold addFavourite. by rewrite H. Qed.

Lemma perform_remove_sublist favourites mealId :
  perform favourites (Remove mealId) `sublist_of` favourites.
Proof. simpl. unfold removeFavourite. apply sublist_filter. Qed.

Lemma perform_comment_ids favourites mealId comment :
  ids (perform favourites (Comment mealId comment)) = ids favourites.
Proof.
  simpl. unfold addCommentToFavourite, ids. rewrite <- list_fmap_compose.
  apply list_fmap_ext. intros i fav _. simpl. by case_bool_decide.
Qed.

Lemma perform_NoDup favourites a :
  NoDup (ids favourites) → NoDup (ids (perform favourites a)).
Proof.
  intros Hnd. destruct a as [meal|mealId|mealId comment].
  - destruct (isFavourite favourites (idMeal meal)) eqn:Hfav.
    + by rewrite perform_add_present.
    + rewrite perform_add_absent by done. unfold ids. rewrite fmap_app.
      apply NoDup_app. split; [done|]. split; [|apply NoDup_singleton].
      intros x Hx ->%list_elem_of_singleton.
      by apply isFavourite_false in Hfav.
  - eapply sublist_NoDup; [exact Hnd|]. unfold ids.
    apply fmap_sublist, perform_remove_sublist.
  - by rewrite perform_comment_ids.
Qed.

(** C6. The list has at most one entry per identifier after every sequence
    of operations on the empty list, and any list with that property keeps
    it under every sequence of operations.  Adding changes nothing when the
    identifier is present and puts the record after the unchanged
    existing entries when it is not; removing leaves a sublist; commenting
    leaves the identifiers as they are. *)
Theorem favourites_at_most_one_per_id favourites :
  (∀ actions, NoDup (ids (run [] actions))) ∧
  (NoDup (ids favourites) →
   ∀ actions, NoDup (ids (run favourites actions))) ∧
  (∀ meal, isFavourite favourites (idMeal meal) = true →
           perform favourites (Add meal) = favourites) ∧
  (∀ meal, isFavourite favourites (idMeal meal) = false →
           perform favourites (Add meal) = favourites ++ [meal]) ∧
  (∀ mealId, perform favourites (Remove mealId) `sublist_of` favourites) ∧
  (∀ mealId comment,
     ids (perform favourites (Comment mealId comment)) = ids favourites).
Proof.
  assert (Hrun : ∀ actions l, NoDup (ids l) → NoDup (ids (run l actions))).
  { unfold run. induction actions as [|a actions IH]; intros l Hnd; simpl;
      [done|].
    by apply IH, perform_NoDup. }
  split; [|split; [|split; [|split; [|split]]]].
  - intros actions. apply Hrun. simpl. apply NoDup_nil_2.
  - intros Hnd actions. by apply Hrun.
  - apply perform_add_present.
  - apply perform_add_absent.
  - apply perform_remove_sublist.
  - apply perform_comment_ids.
Qed.

Lemma filter_keeps_all {A} (P : A → Prop) `{!∀ x, Decision (P x)} (l : list A) :
  Forall P l → filter P l = l.
Proof.
  induction 1 as [|x l Hx _ IH]; [done|].
  by rewrite filter_cons_True, IH.
Qed.

Lemma perform_remove_absent favourites mealId :
  isFavourite favourites mealId = false →
  perform favourites (Remove mealId) = favourites.
Proof.
  intros Habs%isFavourite_false. simpl. unfold removeFavourite.
  apply filter_keeps_all. apply Forall_forall. intros fav Hin Hid.
  apply Habs. rewrite <- Hid. unfold ids. by apply list_elem_of_fmap_2.
Qed.

Lemma perform_comment_absent favourites mealId comment :
  isFavourite favourites mealId = false →
  perform favourites (Comment mealId comment) = favourites.
Proof.
  intros Habs%isFavourite_false. simpl. unfold addCommentToFavourite.
  rewrite <- (list_fmap_id favourites) at 2.
  apply list_fmap_ext. intros i fav Hi. simpl.
  case_bool_decide as Hid; [|done]. exfalso. apply Habs. subst mealId.
  unfold ids. eapply list_elem_of_fmap_2, list_elem_of_lookup_2, Hi.
Qed.

(** Removing an identifier and adding a record for it leaves that record,
    as it was passed in, as the only entry for the identifier. *)
Lemma remove_then_add favourites meal :
  run favourites [Remove (idMeal meal); Add meal] =
    filter (λ fav, idMeal fav ≠ idMeal meal) favourites ++ [meal].
Proof.
  unfold run. simpl foldl. apply perform_add_absent.
  apply isFavourite_false. simpl. unfold removeFavourite, ids.
  intros (fav & Hid & Hin)%list_elem_of_fmap.
  by apply list_elem_of_filter in Hin as [Hne _].
Qed.

Lemma readded_entry favourites meal :
  let final := run favourites [Remove (idMeal meal); Add meal] in
  isFavourite final (idMeal meal) = true ∧
  ∀ fav, fav ∈ final → idMeal fav = idMeal meal → fav = meal.
Proof.
  intros final. subst final. rewrite remove_then_add. split.
  - apply isFavourite_true. unfold ids. rewrite fmap_app.
    apply elem_of_app. right. simpl. apply list_elem_of_here.
  - intros fav [Hold|Hnew%list_elem_of_singleton]%elem_of_app Hid;
      [|done].
    by apply list_elem_of_filter in Hold as [Hne _].
Qed.

(** C7. Adding one identifier twice to the empty list gives a list of one
    entry; removing, or commenting on, an identifier that is not in the
    list gives the list back; after add, remove, add for one identifier
    (with or without a comment set in between) the identifier is a
    favourite and its only entry is the record as it was added last, so
    nothing of the removed entry, its comment included, is left. *)
Theorem favourites_store_laws :
  (∀ meal meal', idMeal meal' = idMeal meal →
     List.length (run [] [Add meal; Add meal']) = 1) ∧
  (∀ favourites mealId, isFavourite favourites mealId = false →
     perform favourites (Remove mealId) = favourites) ∧
  (∀ favourites mealId comment, isFavourite favourites mealId = false →
     perform favourites (Comment mealId comment) = favourites) ∧
  (∀ favourites meal,
     let final :=
       run favourites [Add meal; Remove (idMeal meal); Add meal] in
     isFavourite final (idMeal meal) = true ∧
     ∀ fav, fav ∈ final → idMeal fav = idMeal meal →
            fav = meal ∧ userComment fav = userComment meal) ∧
  (∀ favourites meal comment,
     let final :=
       run favourites [Add meal; Comment (idMeal meal) comment;
                       Remove (idMeal meal); Add meal] in
     isFavourite final (idMeal meal) = true ∧
     ∀ fav, fav ∈ final → idMeal fav = idMeal meal →
            fav = meal ∧ userComment fav = userComment meal).
Proof.
  split; [|split; [|split; [|split]]].
  - intros meal meal' Hid.
    change (run [] [Add meal; Add meal'])
      with (perform (perform [] (Add meal)) (Add meal')).
    rewrite (perform_add_absent [] meal) by done.
    rewrite perform_add_present; [done|].
    apply isFavourite_true. rewrite Hid. simpl. apply list_elem_of_here.
  - apply perform_remove_absent.
  - apply perform_comment_absent.
  - intros favourites meal final.
    destruct (readded_entry (perform favourites (Add meal)) meal)
      as [Hfav Honly].
    split; [exact Hfav|]. intros fav Hin Hid.
    by rewrite (Honly fav Hin Hid).
  - intros favourites meal comment final.
    destruct (readded_entry
                (perform (perform favourites (Add meal))
                         (Comment (idMeal meal) comment)) meal)
      as [Hfav Honly].
    split; [exact Hfav|]. intros fav Hin Hid.
    by rewrite (Honly fav Hin Hid).
Qed.

End FavouritesFacts.

Section FavouritesSamples.
Import Favourites.

Lemma favourites_at_most_one_per_id_witness :
  NoDup (ids (run [] [Add Api.brown_stew; Add Api.brown_stew_light;
                      Comment "52940" "Sunday dinner"; Remove "52772"])) ∧
  perform [Api.brown_stew] (Add Api.brown_stew_light) = [Api.brown_stew] ∧
  perform [] (Add Api.brown_stew) = [Api.brown_stew].
Proof.
  split; [|split].
  - apply (proj1 (proj2 (favourites_at_most_one_per_id []))).
    simpl. apply NoDup_nil_2.
  - apply (proj1 (proj2 (proj2
             (favourites_at_most_one_per_id [Api.brown_stew])))).
    reflexivity.
  - apply (proj1 (proj2 (proj2 (proj2 (favourites_at_most_one_per_id []))))).
    reflexivity.
Defined.

Lemma favourites_store_laws_witness :
  List.length (run [] [Add Api.brown_stew; Add Api.brown_stew_light]) = 1 ∧
  perform [Api.brown_stew] (Remove "52772") = [Api.brown_stew] ∧
  perform [Api.brown_stew] (Comment "52772" "too salty") = [Api.brown_stew] ∧
  (∀ fav,
     fav ∈ run [] [Add Api.brown_stew; Comment "52940" "Sunday dinner";
                   Remove "52940"; Add Api.brown_stew] →
     idMeal fav = "52940" → userComment fav = None).
Proof.
  destruct favourites_store_laws as (Htwice & Hremove & Hcomment & _ & Hagain).
  split; [|split; [|split]].
  - apply Htwice. reflexivity.
  - apply Hremove. reflexivity.
  - apply Hcomment. reflexivity.
  - intros fav Hin Hid.
    apply (proj2 (Hagain [] Api.brown_stew "Sunday dinner") fav Hin Hid).
Defined.

End FavouritesSamples.

(** ** Navigation *)

Section NavigationFacts.
Import Navigation.
Implicit Types (st : State) (path : string).

(** From the initial state, navigating to non-empty routes and going back
    never makes the current or the saved route empty. *)
Lemma well_formed_initial hash : well_formed (initial hash).
Proof.
  split; [|done]. simpl. destruct (truthy hash) eqn:Hh; [|done].
  by apply truthy_true.
Qed.

Lemma well_formed_step st s :
  well_formed st →
  (∀ path, s = Navigate path → path ≠ "") →
  well_formed (step st s).
Proof.
  intros [Hcur Hprev] Hpath. destruct s as [path|]; simpl.
  - split; simpl; [by apply Hpath|].
    intros prev. destruct (_ && _); [by intros [= <-] | apply Hprev].
  - unfold goBack. destruct (prevPath st) as [prev|] eqn:Hp; [|done].
    destruct (truthy prev) eqn:Ht; split; simpl; try done.
    by apply truthy_true.
Qed.

Lemma well_formed_run hash (steps : list Step) :
  (∀ path, Navigate path ∈ steps → path ≠ "") →
  well_formed (foldl step (initial hash) steps).
Proof.
  generalize (well_formed_initial hash). generalize (initial hash).
  induction steps as [|s steps IH]; intros st Hwf Hpaths; simpl; [done|].
  apply IH.
  - apply well_formed_step; [done|]. intros path ->. apply Hpaths.
    apply list_elem_of_here.
  - intros path Hin. apply Hpaths. by apply list_elem_of_further.
Qed.

(** The empty string is not a route: [goBack] treats a saved empty string
    as nothing saved and leaves it where it is. *)
Lemma goBack_empty_saved st :
  prevPath st = Some "" → goBack st = mkNav ROOT (Some "") ROOT.
Proof. intros Hsaved. unfold goBack. by rewrite Hsaved. Qed.

(** C8. Navigating to a detail route from a route that is not one saves
    the current route as the previous one, whatever was saved before;
    navigating from a detail route leaves the saved route alone; going back
    moves to the saved route and clears it, and moves to the root when
    nothing is saved; so after [navigate(root)], [navigate(detail)] a first
    and a second [goBack] both end on the root with nothing saved. *)
Theorem navigation_previous_route :
  (∀ st path, is_detail path = true → is_detail (currentPath st) = false →
     navigate path st = mkNav path (Some (currentPath st)) path) ∧
  (∀ st path, is_detail (currentPath st) = true →
     navigate path st = mkNav path (prevPath st) path) ∧
  (∀ st prev, prevPath st = Some prev → prev ≠ "" →
     goBack st = mkNav prev None prev) ∧
  (∀ st, prevPath st = None → goBack st = mkNav ROOT None ROOT) ∧
  (∀ st path, is_detail path = true →
     let visited := navigate path (navigate ROOT st) in
     goBack visited = mkNav ROOT None ROOT ∧
     goBack (goBack visited) = mkNav ROOT None ROOT).
Proof.
  split; [|split; [|split; [|split]]].
  - intros st path Hto Hfrom. unfold navigate. by rewrite Hto, Hfrom.
  - intros st path Hfrom. unfold navigate. rewrite Hfrom.
    by rewrite andb_false_r.
  - intros st prev Hsaved Hne%truthy_true. unfold goBack.
    by rewrite Hsaved, Hne.
  - intros st Hnone. unfold goBack. by rewrite Hnone.
  - intros st path Hto visited. subst visited. unfold navigate. simpl.
    rewrite Hto. done.
Qed.

(** C10. Navigating to a route that is not a detail route leaves the saved
    previous route as it is, and no navigation clears a saved route.  So
    when a detail route was entered from route [A] and left by navigating
    to another route, going back moves to [A] and clears the saved
    route. *)
Theorem navigate_keeps_previous :
  (∀ st path, is_detail path = false →
     prevPath (navigate path st) = prevPath st) ∧
  (∀ st path, is_Some (prevPath st) → is_Some (prevPath (navigate path st))) ∧
  (∀ st detail other,
     currentPath st ≠ "" → is_detail (currentPath st) = false →
     is_detail detail = true → is_detail other = false →
     prevPath (navigate other (navigate detail st)) = Some (currentPath st) ∧
     goBack (navigate other (navigate detail st))
       = mkNav (currentPath st) None (currentPath st)).
Proof.
  split; [|split].
  - intros st path Hto. unfold navigate. simpl. by rewrite Hto.
  - intros st path Hsaved. unfold navigate. simpl.
    by destruct (_ && _).
  - intros st detail other Hne%truthy_true Hfrom Hto Hother.
    unfold goBack, navigate. simpl. rewrite Hto, Hfrom, Hother. simpl.
    by rewrite Hne.
Qed.

Lemma navigation_previous_route_witness :
  navigate "#/recipe/52940" (mkNav "#/search" (Some "#/favourites") "#/search")
    = mkNav "#/recipe/52940" (Some "#/search") "#/recipe/52940" ∧
  navigate "#/recipe/52772" (mkNav "#/recipe/52940" (Some "#/search") "")
    = mkNav "#/recipe/52772" (Some "#/search") "#/recipe/52772" ∧
  goBack (mkNav "#/recipe/52940" (Some "#/search") "#/recipe/52940")
    = mkNav "#/search" None "#/search" ∧
  goBack (mkNav "#/search" None "#/search") = mkNav ROOT None ROOT ∧
  goBack (goBack (navigate "#/recipe/42" (navigate ROOT (initial "#/search"))))
    = mkNav ROOT None ROOT.
Proof.
  destruct navigation_previous_route as (Hsave & Hkeep & Hback & Hroot & Htwice).
  split; [|split; [|split; [|split]]].
  - apply Hsave; reflexivity.
  - apply Hkeep; reflexivity.
  - apply Hback; [reflexivity | discriminate].
  - apply Hroot; reflexivity.
  - apply (Htwice (initial "#/search") "#/recipe/42"). reflexivity.
Defined.

Lemma navigate_keeps_previous_witness :
  prevPath (navigate "#/favourites"
              (mkNav "#/recipe/52940" (Some "#/search") "#/recipe/52940"))
    = Some "#/search" ∧
  is_Some (prevPath (navigate "#/recipe/52772"
                       (mkNav "#/recipe/52940" (Some "#/search") ""))) ∧
  goBack (navigate "#/favourites"
            (navigate "#/recipe/52940" (mkNav "#/search" None "#/search")))
    = mkNav "#/search" None "#/search".
Proof.
  destruct navigate_keeps_previous as (Hkeep & Hsome & Hleave).
  split; [|split].
  - apply (Hkeep (mkNav "#/recipe/52940" (Some "#/search") "#/recipe/52940")).
    reflexivity.
  - apply Hsome. simpl. by eexists.
  - apply (Hleave (mkNav "#/search" None "#/search")
             "#/recipe/52940" "#/favourites");
      [discriminate | reflexivity..].
Defined.

End NavigationFacts.

(** ** Search-state cache *)

Section SearchStateFacts.
Import SearchState.

(** C9. Merging a partial update over a session gives, for every key the
    update mentions, the update's value, and for every other key what the
    session had before. *)
Theorem setSearchState_merges (s prev : gmap string Value) (key : string) :
  (∀ v, s !! key = Some v → setSearchState s prev !! key = Some v) ∧
  (s !! key = None → setSearchState s prev !! key = prev !! key).
Proof.
  unfold setSearchState. split.
  - intros v Hs. by apply lookup_union_Some_l.
  - intros Hs. by apply lookup_union_r.
Qed.

Lemma setSearchState_merges_witness :
  setSearchState {[ "loading" := VBool true ]} initialSearchState !! "loading"
    = Some (VBool true) ∧
  setSearchState {[ "loading" := VBool true ]} initialSearchState !! "name"
    = Some (VString "") ∧
  setSearchState {[ "meals" := VMeals [Api.brown_stew];
                    "loading" := VBool false ]}
    (setSearchState {[ "loading" := VBool true ]} initialSearchState)
    !! "meals" = Some (VMeals [Api.brown_stew]) ∧
  setSearchState {[ "meals" := VMeals [Api.brown_stew];
                    "loading" := VBool false ]}
    (setSearchState {[ "loading" := VBool true ]} initialSearchState)
    !! "name" = Some (VString "").
Proof.
  split; [|split; [|split]].
  - apply (proj1 (setSearchState_merges _ initialSearchState "loading")).
    reflexivity.
  - transitivity (initialSearchState !! "name"); [|reflexivity].
    apply (proj2 (setSearchState_merges _ initialSearchState "name")).
    reflexivity.
  - apply (proj1 (setSearchState_merges _ _ "meals")). reflexivity.
  - etransitivity.
    + apply (proj2 (setSearchState_merges _ _ "name")). reflexivity.
    + transitivity (initialSearchState !! "name"); [|reflexivity].
      apply (proj2 (setSearchState_merges _ initialSearchState "name")).
      reflexivity.
Defined.

End SearchStateFacts.

(** ** Further properties of the navigation *)

Section NavigationMore.
Import Navigation.
Implicit Types (st : State) (path : string).

Lemma saved_plain_step st s : saved_plain st → saved_plain (step st s).
Proof.
  intros Hst prev. destruct s as [path|]; simpl.
  - destruct (is_detail path && negb (is_detail (currentPath st))) eqn:Hsave.
    + intros [= <-]. apply andb_true_iff in Hsave as [_ Hcur].
      by apply negb_true_iff.
    + apply Hst.
  - unfold goBack. destruct (prevPath st) as [p|] eqn:Hp; [|done].
    destruct (truthy p); simpl; [done|]. intros [= <-]. by apply Hst.
Qed.

Lemma saved_plain_run hash (steps : list Step) :
  saved_plain (foldl step (initial hash) steps).
Proof.
  assert (Hinit : saved_plain (initial hash)) by done.
  revert Hinit. generalize (initial hash).
  induction steps as [|s steps IH]; intros st Hst; simpl; [done|].
  by apply IH, saved_plain_step.
Qed.

(** X1. In every state the application reaches, the saved route is not a
    detail route, and going back does not end on a detail route. *)
Theorem back_leaves_detail_routes hash (steps : list Step) :
  let st := foldl step (initial hash) steps in
  (∀ prev, prevPath st = Some prev → is_detail prev = false) ∧
  is_detail (currentPath (goBack st)) = false.
Proof.
  intros st. pose proof (saved_plain_run hash steps) as Hplain.
  fold st in Hplain. split; [exact Hplain|].
  unfold goBack. destruct (prevPath st) as [p|] eqn:Hp; [|done].
  destruct (truthy p); simpl; [|done]. by apply Hplain.
Qed.

(** X2. Two consecutive [goBack] end on the root route with nothing saved
    that could still be used, whatever the state was. *)
Theorem goBack_twice_root st :
  currentPath (goBack (goBack st)) = ROOT ∧
  locationHash (goBack (goBack st)) = ROOT ∧
  goBack (goBack (goBack st)) = goBack (goBack st).
Proof.
  destruct st as [cur [p|] hash]; unfold goBack; simpl; [|done].
  destruct (truthy p) eqn:Ht; simpl; [done|]. by rewrite !Ht; simpl; rewrite Ht.
Qed.

Lemma navigate_details_keep st (details : list string) :
  is_detail (currentPath st) = true →
  Forall (λ d, is_detail d = true) details →
  let st' := foldl (λ s d, navigate d s) st details in
  prevPath st' = prevPath st ∧ is_detail (currentPath st') = true.
Proof.
  intros Hcur Hall. revert st Hcur.
  induction Hall as [|d details Hd _ IH]; intros st Hcur; simpl; [done|].
  destruct (IH (navigate d st)) as [Hprev Hdet]; [done|].
  split; [|done]. rewrite Hprev. unfold navigate. simpl.
  by rewrite Hcur, andb_false_r.
Qed.

(** X3. Entering a detail route from a route that is not one, moving on
    through any number of further detail routes and then going back
    returns to the route the first detail route was entered from. *)
Theorem goBack_after_detail_chain st (first : string) (more : list string) :
  currentPath st ≠ "" →
  is_detail (currentPath st) = false →
  is_detail first = true →
  Forall (λ d, is_detail d = true) more →
  goBack (foldl (λ s d, navigate d s) st (first :: more))
    = mkNav (currentPath st) None (currentPath st).
Proof.
  intros Hne%truthy_true Hfrom Hfirst Hmore. simpl.
  destruct (navigate_details_keep (navigate first st) more) as [Hprev _];
    [done..|].
  assert (Hsaved : prevPath (navigate first st) = Some (currentPath st)).
  { unfold navigate. simpl. by rewrite Hfirst, Hfrom. }
  unfold goBack. by rewrite Hprev, Hsaved, Hne.
Qed.

End NavigationMore.

(** ** Page selection *)

Section RouterFacts.
Import Router.

Lemma split_nonempty sep s : ∃ piece pieces, split sep s = piece :: pieces.
Proof.
  induction s as [|c s (piece & pieces & IH)]; simpl; [by eexists _, _|].
  destruct (Ascii.eqb c sep); [by eexists _, _|].
  rewrite IH. by eexists _, _.
Qed.

Lemma split_without_separator sep s : sep ∉ chars s → split sep s = [s].
Proof.
  induction s as [|c s IH]; simpl; [done|].
  intros [Hc Hs]%not_elem_of_cons.
  destruct (Ascii.eqb_spec c sep) as [->|_]; [done|]. by rewrite IH.
Qed.

Lemma split_recipe_route idMeal :
  split slash (recipe_route idMeal) = "#" :: "recipe" :: split slash idMeal.
Proof.
  unfold recipe_route. destruct (split_nonempty slash idMeal) as (p & ps & Hid).
  cbv [String.append]. unfold slash in *.
  repeat (cbn [split Ascii.eqb Ascii.ascii_of_nat Ascii.ascii_of_pos
               Pos.of_succ_nat Pos.succ Ascii.shift Bool.eqb];
          try rewrite Hid).
  done.
Qed.

(** X4. The route built for a recipe identifier selects the detail page.
    The identifier the page receives is the part of the identifier before
    its first [/]: the identifier itself when it contains no [/]. *)
Theorem renderPage_recipe_route (idMeal : string) :
  renderPage (recipe_route idMeal) = RecipeDetail (head (split slash idMeal)) ∧
  (slash ∉ chars idMeal →
   renderPage (recipe_route idMeal) = RecipeDetail (Some idMeal)).
Proof.
  assert (Hpage : renderPage (recipe_route idMeal)
                  = RecipeDetail (head (split slash idMeal))).
  { unfold renderPage. rewrite split_recipe_route.
    replace (Navigation.is_detail (recipe_route idMeal)) with true
      by (by destruct idMeal).
    by destruct (split slash idMeal). }
  split; [done|]. intros Hid. by rewrite Hpage, split_without_separator.
Qed.

Lemma renderPage_recipe_route_witness :
  renderPage (recipe_route "52940") = RecipeDetail (Some "52940").
Proof.
  apply (proj2 (renderPage_recipe_route "52940")).
  intros Hin. by repeat (apply elem_of_cons in Hin as [Hin|Hin]; [done|]);
    apply elem_of_nil in Hin.
Defined.

End RouterFacts.

(** ** Further properties of the search-state cache *)

Section SearchStateMore.
Import SearchState.
Implicit Types (s prev : gmap string Value).

(** X5. Two updates in a row are one update, the later merged over the
    earlier; repeating an update changes nothing; updates of different
    members can be applied in either order; and an update that mentions
    only members of the session leaves the set of members as it is. *)
Theorem setSearchState_compose s1 s2 prev :
  setSearchState s2 (setSearchState s1 prev)
    = setSearchState (setSearchState s2 s1) prev ∧
  setSearchState s1 (setSearchState s1 prev) = setSearchState s1 prev ∧
  (s1 ##ₘ s2 →
   setSearchState s2 (setSearchState s1 prev)
     = setSearchState s1 (setSearchState s2 prev)) ∧
  (dom s1 ⊆ dom prev → dom (setSearchState s1 prev) = dom prev).
Proof.
  unfold setSearchState. split; [|split; [|split]].
  - by rewrite (assoc_L (∪)).
  - by rewrite (assoc_L (∪)), (idemp_L (∪)).
  - intros Hdisj. by rewrite !(assoc_L (∪)), (map_union_comm s1 s2).
  - intros Hsub. rewrite dom_union_L. by apply subseteq_union_1_L.
Qed.

Lemma setSearchState_compose_witness :
  setSearchState {[ "name" := VString "pie" ]}
    (setSearchState {[ "loading" := VBool true ]} initialSearchState)
  = setSearchState {[ "loading" := VBool true ]}
      (setSearchState {[ "name" := VString "pie" ]} initialSearchState) ∧
  dom (setSearchState {[ "loading" := VBool true ]} initialSearchState)
    = dom initialSearchState.
Proof.
  split.
  - apply (proj1 (proj2 (proj2
      (setSearchState_compose {[ "loading" := VBool true ]}
         {[ "name" := VString "pie" ]} initialSearchState)))).
    apply map_disjoint_singleton_l. reflexivity.
  - apply (proj2 (proj2 (proj2
      (setSearchState_compose {[ "loading" := VBool true ]}
         ∅ initialSearchState)))).
    intros key Hkey. apply elem_of_dom. apply elem_of_dom in Hkey as [v Hv].
    apply lookup_singleton_Some in Hv as [<- _]. by eexists.
Defined.

End SearchStateMore.

(** ** Further properties of the favourites *)

Section FavouritesMore.
Import Favourites FavouriteButton.
Implicit Types (favourites : list IFavourite) (meal : IMeal) (a : Action).

Lemma ids_remove favourites mealId :
  ids (perform favourites (Remove mealId))
    = filter (λ id, id ≠ mealId) (ids favourites).
Proof.
  simpl. unfold removeFavourite, ids.
  induction favourites as [|fav favourites IH]; [done|].
  rewrite fmap_cons, !filter_cons.
  destruct (decide (idMeal fav ≠ mealId)); [rewrite fmap_cons|]; by rewrite IH.
Qed.

(** X6. Membership follows the operations as a set of identifiers would:
    adding makes the record's identifier a member, removing makes the
    identifier a non-member, and no operation changes the membership of any
    other identifier. *)
Theorem isFavourite_perform favourites a mealId :
  isFavourite (perform favourites a) mealId =
    match a with
    | Add meal =>
        bool_decide (mealId = idMeal meal) || isFavourite favourites mealId
    | Remove removed =>
        negb (bool_decide (mealId = removed)) && isFavourite favourites mealId
    | Comment _ _ => isFavourite favourites mealId
    end.
Proof.
  apply Bool.eq_iff_eq_true. destruct a as [meal|removed|commented comment].
  - rewrite orb_true_iff, bool_decide_eq_true, !isFavourite_true.
    destruct (isFavourite favourites (idMeal meal)) eqn:Hfav.
    + rewrite perform_add_present by done. split; [by right|].
      intros [->|H]; [by apply isFavourite_true | done].
    + rewrite perform_add_absent by done. unfold ids. rewrite fmap_app.
      rewrite elem_of_app. simpl. rewrite list_elem_of_singleton. tauto.
  - rewrite andb_true_iff, negb_true_iff, bool_decide_eq_false.
    rewrite !isFavourite_true, ids_remove, list_elem_of_filter. tauto.
  - by rewrite !isFavourite_true, perform_comment_ids.
Qed.

(** X7. The comment set last is the one kept: setting a comment twice is
    setting the second one; afterwards every entry with the identifier
    carries that comment, and every other entry is where and what it
    was. *)
Theorem comment_latest_wins favourites mealId (first second : string) :
  perform (perform favourites (Comment mealId first)) (Comment mealId second)
    = perform favourites (Comment mealId second) ∧
  (∀ fav, fav ∈ perform favourites (Comment mealId second) →
          idMeal fav = mealId → userComment fav = Some second) ∧
  (∀ i fav, favourites !! i = Some fav → idMeal fav ≠ mealId →
            perform favourites (Comment mealId second) !! i = Some fav).
Proof.
  simpl. unfold addCommentToFavourite. split; [|split].
  - rewrite <- list_fmap_compose. apply list_fmap_ext. intros i fav _. simpl.
    destruct (bool_decide_reflect (idMeal fav = mealId)) as [Hid|Hid]; simpl.
    + by rewrite bool_decide_true.
    + by rewrite bool_decide_false.
  - intros fav (old & -> & _)%list_elem_of_fmap.
    case_bool_decide as Hid; [done|]. by intros.
  - intros i fav Hi Hid. rewrite list_lookup_fmap, Hi. simpl.
    by rewrite bool_decide_false.
Qed.

(** X8. A click on the favourite button flips the membership of its
    recipe and reports the new membership to [onToggle]; when the recipe
    was not a favourite, a second click gives back the list as it was. *)
Theorem click_toggles favourites meal :
  isFavourite (click favourites meal) (idMeal meal)
    = negb (isFavourite favourites (idMeal meal)) ∧
  snd (handleClick favourites meal)
    = isFavourite (click favourites meal) (idMeal meal) ∧
  (isFavourite favourites (idMeal meal) = false →
   click (click favourites meal) meal = favourites).
Proof.
  assert (Hflip : isFavourite (click favourites meal) (idMeal meal)
                  = negb (isFavourite favourites (idMeal meal))).
  { unfold click, handleClick.
    destruct (isFavourite favourites (idMeal meal)) eqn:Hfav; simpl fst.
    - apply isFavourite_false. rewrite ids_remove.
      by intros [Hne _]%list_elem_of_filter.
    - rewrite perform_add_absent by done. apply isFavourite_true.
      unfold ids. rewrite fmap_app, elem_of_app. right. apply list_elem_of_here. }
  split; [done|]. split.
  - rewrite Hflip. unfold handleClick.
    by destruct (isFavourite favourites (idMeal meal)).
  - intros Habs. unfold click at 1. unfold handleClick at 1.
    rewrite Hflip, Habs. simpl fst. unfold click, handleClick.
    rewrite Habs. simpl fst. rewrite perform_add_absent by done.
    simpl. unfold removeFavourite. rewrite filter_app.
    rewrite filter_cons_False, filter_nil, app_nil_r by (by intros H).
    apply filter_keeps_all, Forall_forall. intros fav Hin Hid.
    apply isFavourite_false in Habs. apply Habs. rewrite <- Hid.
    unfold ids. by apply list_elem_of_fmap_2.
Qed.

End FavouritesMore.

Section FavouritesMoreSamples.
Import Favourites FavouriteButton.

Lemma comment_latest_wins_witness :
  (∀ fav, fav ∈ perform [Api.brown_stew] (Comment "52940" "with rice") →
          userComment fav = Some "with rice") ∧
  perform [Api.brown_stew; RecipeDetail.pancakes] (Comment "52940" "with rice")
    !! 1 = Some RecipeDetail.pancakes.
Proof.
  destruct (comment_latest_wins [Api.brown_stew] "52940" "" "with rice")
    as (_ & Hset & _).
  destruct (comment_latest_wins [Api.brown_stew; RecipeDetail.pancakes]
              "52940" "" "with rice") as (_ & _ & Hkeep).
  split.
  - intros fav Hin. apply (Hset fav Hin).
    apply list_elem_of_singleton in Hin as ->. reflexivity.
  - apply Hkeep; [reflexivity | discriminate].
Defined.

Lemma click_toggles_witness :
  click (click [RecipeDetail.pancakes] Api.brown_stew) Api.brown_stew
    = [RecipeDetail.pancakes].
Proof.
  apply (proj2 (proj2 (click_toggles [RecipeDetail.pancakes] Api.brown_stew))).
  reflexivity.
Defined.

End FavouritesMoreSamples.

(** ** Further properties of the API client *)

Section ApiMore.
Import Api.
Variable backend : nat → string → FetchOutcome.

Lemma promise_all_error_source {A} (ps : list (Result A)) e :
  promise_all ps = Err e → ∃ i, ps !! i = Some (Err e).
Proof.
  induction ps as [|[a|e'] ps IH]; simpl; [done| |].
  - destruct (promise_all ps) as [l|e'']; [done|]. intros [= ->].
    destruct IH as [i Hi]; [done|]. by exists (S i).
  - intros [= ->]. by exists 0.
Qed.

(** X9. Unless all three fields are empty, the answer to the first request
    alone decides two cases: when that request fails the search fails with
    its error, and when it brings no record the search succeeds with the
    empty list; in both cases no further request is issued. *)
Theorem searchRecipes_first_request (params : SearchParams) (url : string)
    (log : list string) :
  search_url params = Some url →
  (∀ e, meals_of (backend (List.length log) url) = Err e →
        searchRecipes backend params log = (Err e, log ++ [url])) ∧
  (meals_of (backend (List.length log) url) = Ok [] →
   searchRecipes backend params log = (Ok [], log ++ [url])).
Proof.
  intros Hurl. rewrite searchRecipes_run, Hurl. split.
  - by intros e ->.
  - intros ->. destruct (_ || _); [|done]. simpl. by rewrite app_nil_r.
Qed.

(** X10. Whenever the ingredient or the area is non-empty, whichever field
    chose the first request, every record of the first answer is looked up
    by identifier, in order, and a successful search returns one record
    per record of the first answer. *)
Theorem searchRecipes_lookup_guard (params : SearchParams) (url : string)
    (results : list IMeal) (log : list string) :
  search_url params = Some url →
  ingredient params ≠ "" ∨ area params ≠ "" →
  meals_of (backend (List.length log) url) = Ok results →
  snd (searchRecipes backend params log)
    = log ++ url :: (lookup_url ∘ idMeal <$> results) ∧
  ∀ full, fst (searchRecipes backend params log) = Ok full →
          List.length full = List.length results.
Proof.
  intros Hurl Hfilter Hfirst.
  assert (Hguard : truthy (ingredient params) || truthy (area params) = true).
  { apply orb_true_iff. destruct Hfilter as [H|H]; [left|right];
      by apply truthy_true. }
  rewrite searchRecipes_run, Hurl, Hfirst, Hguard. simpl. split.
  - by rewrite <- app_assoc.
  - intros full Hfull%promise_all_length. by rewrite Hfull, length_imap.
Qed.

(** X11. A random fetch that fails reports the error of one of its own
    requests, which is never the not-found error of a lookup. *)
Theorem fetchRandomRecipes_failure (count : nat) (log : list string) e :
  fst (fetchRandomRecipes backend count log) = Err e →
  (∃ i, i < count ∧
        meals_of (backend (List.length log + i) random_url) = Err e) ∧
  ∀ id, e ≠ Error (not_found_message id).
Proof.
  rewrite fetchRandomRecipes_run. simpl.
  destruct (promise_all _) as [lists|e'] eqn:Hall; [done|].
  intros [= ->]. apply promise_all_error_source in Hall as [i Hi].
  rewrite list_lookup_fmap in Hi.
  destruct (seq 0 count !! i) as [j|] eqn:Hj; [|done].
  apply lookup_seq in Hj as [-> Hlt]. simpl in Hi. injection Hi as Hi.
  split; [by exists i|]. intros id ->.
  apply meals_of_error in Hi as [[m [=]]|[[m [=]]|(r & _ & _ & Hr)]].
  by apply eq_sym, transport_error_distinct in Hr.
Qed.

End ApiMore.

Section ApiMoreSamples.
Import Api.

Lemma searchRecipes_first_request_witness :
  searchRecipes no_results_backend (mkParams "" "" "Atlantis") []
    = (Ok [], [API_BASE +:+ "filter.php?a=Atlantis"]).
Proof.
  apply (proj2 (searchRecipes_first_request no_results_backend
                  (mkParams "" "" "Atlantis")
                  (API_BASE +:+ "filter.php?a=Atlantis") [] eq_refl)).
  reflexivity.
Defined.

Lemma searchRecipes_lookup_guard_witness :
  snd (searchRecipes healthy_backend (mkParams "chicken" "beef" "") [])
    = [API_BASE +:+ "search.php?s=chicken"; lookup_url "52940"].
Proof.
  apply (proj1 (searchRecipes_lookup_guard healthy_backend
                  (mkParams "chicken" "beef" "")
                  (API_BASE +:+ "search.php?s=chicken") [brown_stew] []
                  eq_refl
                  (or_introl (λ H : "beef" = "", match H with end : False))
                  eq_refl)).
Defined.

(** A server whose every answer is a 500. *)
Lemma fetchRandomRecipes_failure_witness :
  ∃ i, i < 2 ∧
       meals_of (Responded (mkResponse false "Internal Server Error"
                              (InvalidJson "")))
       = Err (Error "API request failed: Internal Server Error").
Proof.
  destruct (fetchRandomRecipes_failure
              (λ _ _, Responded (mkResponse false "Internal Server Error"
                                   (InvalidJson "")))
              2 [] (Error "API request failed: Internal Server Error")
              eq_refl) as [(i & Hlt & Hi) _].
  by exists i.
Defined.

End ApiMoreSamples.

(** ** Search page *)

Section SearchPageFacts.
Import SearchState SearchPage.
Variable backend : nat → string → Api.FetchOutcome.
Implicit Types (session : gmap string Value) (params : Api.SearchParams).

Lemma guarded_in_time {T} (operation : Result T) :
  guarded operation false = Some operation.
Proof. by destruct operation. Qed.

Lemma guarded_late {T} (operation : Result T) :
  guarded operation true = Some (Err (Error timeoutMessage)).
Proof. by destruct operation. Qed.

(** Looks a member up in a session that was merged from literal updates. *)
Ltac session_lookup :=
  unfold finish, setSearchState, succeeded, failed, started;
  repeat first
    [ rewrite lookup_union_r by reflexivity
    | erewrite lookup_union_Some_l by reflexivity ];
  try reflexivity.

(** [handleSearch] as the operation it wraps and the text it falls back
    to. *)
Lemma handleSearch_run params deadlineFirst session log :
  handleSearch backend params deadlineFirst session log =
    let random := Api.search_url params in
    let settled :=
      match random with
      | None => Api.fetchRandomRecipes backend RANDOM_RECIPE_COUNT log
      | Some _ => Api.searchRecipes backend params log
      end in
    (finish (match random with
             | None => "Failed to load random"
             | Some _ => "Search failed"
             end)
            (guarded (fst settled) deadlineFirst)
            (setSearchState started session),
     snd settled).
Proof.
  unfold handleSearch, loadRandom, Api.search_url, Api.bind, Api.ret.
  destruct (truthy (Api.name params)), (truthy (Api.ingredient params)),
    (truthy (Api.area params)); cbn [negb andb];
    first [ by destruct (Api.searchRecipes backend params log)
          | by destruct (Api.fetchRandomRecipes backend RANDOM_RECIPE_COUNT log) ].
Qed.

Lemma finish_shape (fallback : string) (operation : Result (list IMeal))
    (deadlineFirst : bool) session :
  fallback ≠ "" →
  let session' :=
    finish fallback (guarded operation deadlineFirst)
      (setSearchState started session) in
  session' !! "loading" = Some (VBool false) ∧
  session' !! "isInitial" = Some (VBool false) ∧
  session' !! "name" = session !! "name" ∧
  session' !! "ingredient" = session !! "ingredient" ∧
  session' !! "area" = session !! "area" ∧
  ((session' !! "error" = Some VNull ∧
    ∃ data, session' !! "meals" = Some (VMeals data)) ∨
   (∃ text, text ≠ "" ∧ session' !! "error" = Some (VString text) ∧
            session' !! "meals" = Some (VMeals []))).
Proof.
  intros Hfb session'. subst session'.
  assert (Hsettled : ∃ outcome,
            guarded operation deadlineFirst = Some outcome).
  { destruct deadlineFirst; [rewrite guarded_late | rewrite guarded_in_time];
      by eexists. }
  destruct Hsettled as [[data|err] ->].
  - repeat split; try by session_lookup.
    left. split; [by session_lookup|]. exists data. by session_lookup.
  - repeat split; try by session_lookup.
    right. exists (if truthy (message err) then message err else fallback).
    split; [|split; by session_lookup].
    destruct (truthy (message err)) eqn:Hm; [by apply truthy_true | done].
Qed.

(** X12. Once a submitted search has settled, in time or not, the session
    is no longer loading and no longer initial, its three filter fields
    are what they were, and it holds either a result list and no error or
    a non-empty error text and an empty result list. *)
Theorem handleSearch_settled params (deadlineFirst : bool) session
    (log : list string) :
  let session' := fst (handleSearch backend params deadlineFirst session log) in
  session' !! "loading" = Some (VBool false) ∧
  session' !! "isInitial" = Some (VBool false) ∧
  session' !! "name" = session !! "name" ∧
  session' !! "ingredient" = session !! "ingredient" ∧
  session' !! "area" = session !! "area" ∧
  ((session' !! "error" = Some VNull ∧
    ∃ data, session' !! "meals" = Some (VMeals data)) ∨
   (∃ text, text ≠ "" ∧ session' !! "error" = Some (VString text) ∧
            session' !! "meals" = Some (VMeals []))).
Proof.
  intros session'. subst session'. rewrite handleSearch_run.
  cbv zeta. cbn [fst]. apply finish_shape.
  by destruct (Api.search_url params).
Qed.

(** X13. When the deadline fires before the operation settles, the session
    shows the timeout text and no results, whatever the server answers;
    the requests issued are the same as without the deadline. *)
Theorem handleSearch_deadline params session (log : list string) :
  let out := handleSearch backend params true session log in
  fst out !! "error" = Some (VString "The request took too long.") ∧
  fst out !! "meals" = Some (VMeals []) ∧
  snd out = snd (handleSearch backend params false session log).
Proof.
  intros out. subst out. rewrite !handleSearch_run.
  cbv zeta. cbn [fst snd]. rewrite guarded_late.
  repeat split; by session_lookup.
Qed.

(** X14. A search that settles before the deadline shows what
    [searchRecipes] returned: its records and no error, or no records and
    the text of its error, [Search failed] standing in for an empty
    text. *)
Theorem handleSearch_in_time params session (log : list string) :
  Api.search_url params ≠ None →
  let session' := fst (handleSearch backend params false session log) in
  (∀ data, fst (Api.searchRecipes backend params log) = Ok data →
     session' !! "meals" = Some (VMeals data) ∧
     session' !! "error" = Some VNull) ∧
  (∀ err, fst (Api.searchRecipes backend params log) = Err err →
     session' !! "meals" = Some (VMeals []) ∧
     session' !! "error" =
       Some (VString (if truthy (message err) then message err
                      else "Search failed"))).
Proof.
  intros Hurl session'. subst session'. rewrite handleSearch_run.
  destruct (Api.search_url params) as [url|]; [|done].
  cbv zeta. cbn [fst]. rewrite guarded_in_time. split.
  - intros data ->. split; by session_lookup.
  - intros err ->. split; by session_lookup.
Qed.

(** X15. Submitting the form with all three fields empty requests twenty
    random records and nothing else; the fallback of nine inside
    [searchRecipes] is not reached from the form. *)
Theorem handleSearch_all_empty params (deadlineFirst : bool) session
    (log : list string) :
  Api.name params = "" → Api.ingredient params = "" → Api.area params = "" →
  handleSearch backend params deadlineFirst session log
    = loadRandom backend deadlineFirst session log ∧
  snd (handleSearch backend params deadlineFirst session log)
    = log ++ replicate 20 Api.random_url.
Proof.
  intros Hn Hi Ha. unfold handleSearch. rewrite Hn, Hi, Ha.
  cbn [truthy negb andb]. split; [reflexivity|].
  unfold loadRandom, Api.bind, Api.ret.
  by rewrite fetchRandomRecipes_run.
Qed.

End SearchPageFacts.

Section SearchPageSamples.
Import SearchState SearchPage.

Lemma handleSearch_in_time_witness :
  fst (handleSearch Api.healthy_backend (Api.mkParams "chicken" "" "") false
         initialSearchState []) !! "meals"
    = Some (VMeals [Api.brown_stew]) ∧
  fst (handleSearch Api.lookup_down_backend (Api.mkParams "" "chicken" "") false
         initialSearchState []) !! "error"
    = Some (VString "API request failed: Service Unavailable").
Proof.
  assert (Hname : Api.search_url (Api.mkParams "chicken" "" "") ≠ None)
    by discriminate.
  assert (Hfilter : Api.search_url (Api.mkParams "" "chicken" "") ≠ None)
    by discriminate.
  split.
  - apply (proj1 (handleSearch_in_time Api.healthy_backend
                    (Api.mkParams "chicken" "" "") initialSearchState []
                    Hname) [Api.brown_stew]).
    reflexivity.
  - apply (proj2 (handleSearch_in_time Api.lookup_down_backend
                    (Api.mkParams "" "chicken" "") initialSearchState []
                    Hfilter)
             (Error "API request failed: Service Unavailable")).
    reflexivity.
Defined.

Lemma handleSearch_all_empty_witness :
  snd (handleSearch Api.healthy_backend (Api.mkParams "" "" "") true
         initialSearchState [])
    = replicate 20 Api.random_url.
Proof.
  apply (proj2 (handleSearch_all_empty Api.healthy_backend
                  (Api.mkParams "" "" "") true initialSearchState []
                  eq_refl eq_refl eq_refl)).
Defined.

End SearchPageSamples.

(** ** Recipe detail page *)

Section RecipeDetailFacts.
Import RecipeDetail.
Variable backend : nat → string → Api.FetchOutcome.

(** X16. After the lookup has settled the detail page shows the recipe
    when the lookup succeeded and an error text otherwise, never the
    spinner and never an empty text: the text of the error, or
    [Recipe not found.] when that text is empty.  For a lookup that
    brought no record the text names the identifier. *)
Theorem page_after_lookup (mealId : string) (log : list string) :
  let settled := fst (Api.fetchRecipeById backend mealId log) in
  let view := fst (page backend mealId log) in
  view ≠ LoadingSpinner ∧
  (∀ m, settled = Ok m → view = Detail m) ∧
  (∀ err, settled = Err err →
     view = ErrorMessage (if truthy (SearchPage.message err)
                          then SearchPage.message err
                          else "Recipe not found.")) ∧
  (∀ text, view = ErrorMessage text → text ≠ "") ∧
  (Api.meals_of (backend (List.length log) (Api.lookup_url mealId)) = Ok [] →
   view = ErrorMessage (Api.not_found_message mealId)).
Proof.
  intros settled view.
  assert (Hview : view = render (loaded settled)).
  { subst view settled. unfold page, Api.bind, Api.ret.
    by destruct (Api.fetchRecipeById backend mealId log). }
  assert (Herr : ∀ err, settled = Err err →
            view = ErrorMessage (if truthy (SearchPage.message err)
                                 then SearchPage.message err
                                 else "Recipe not found.")).
  { intros err Hs. rewrite Hview, Hs. unfold render. simpl.
    by destruct (truthy (SearchPage.message err)). }
  split; [|split; [|split; [|split]]].
  - rewrite Hview. by destruct settled as [m|err]; unfold render; simpl;
      try destruct (truthy (SearchPage.message err)).
  - intros m Hs. by rewrite Hview, Hs.
  - exact Herr.
  - intros text. destruct settled as [m|err] eqn:Hs.
    + by rewrite Hview.
    + rewrite (Herr err eq_refl).
      destruct (truthy (SearchPage.message err)) eqn:Hm; intros [= <-];
        [by apply truthy_true | done].
  - intros Hempty.
    assert (Hs : settled = Err (Error (Api.not_found_message mealId))).
    { subst settled. rewrite fetchRecipeById_run. simpl. by rewrite Hempty. }
    rewrite (Herr _ Hs). simpl. by destruct mealId.
Qed.

End RecipeDetailFacts.

Section IngredientsFacts.
Import RecipeDetail.
Variable trim : string → string.

Lemma push_ingredient_length m (ingredients : list string) (i : nat) :
  List.length (push_ingredient trim m ingredients i)
    = List.length ingredients + (if listed trim m i then 1 else 0).
Proof.
  unfold push_ingredient, listed.
  destruct (member m ("strIngredient" +:+ pretty i)) as [ingredient|]; [|lia].
  destruct (truthy ingredient && _); [|lia].
  rewrite length_app. simpl. lia.
Qed.

Lemma getIngredients_fold_length m (slots_read : list nat)
    (ingredients : list string) :
  List.length (foldl (push_ingredient trim m) ingredients slots_read)
    = List.length ingredients
      + List.length (filter (λ i, listed trim m i = true) slots_read).
Proof.
  revert ingredients.
  induction slots_read as [|i slots_read IH]; intros ingredients; simpl;
    [lia|].
  rewrite IH, push_ingredient_length, filter_cons.
  destruct (decide (listed trim m i = true)) as [Hi|Hi].
  - rewrite Hi. simpl. lia.
  - apply not_true_is_false in Hi. rewrite Hi. lia.
Qed.

Lemma filter_drops_all {A} (P : A → Prop) `{!∀ x, Decision (P x)}
    (l : list A) :
  Forall (λ x, ¬ P x) l → filter P l = [].
Proof.
  induction 1 as [|x l Hx _ IH]; [done|].
  by rewrite filter_cons_False.
Qed.

Lemma getIngredients_fold_ext m m' (slots_read : list nat)
    (ingredients : list string) :
  (∀ i ingredients', i ∈ slots_read →
     push_ingredient trim m ingredients' i
       = push_ingredient trim m' ingredients' i) →
  foldl (push_ingredient trim m) ingredients slots_read
    = foldl (push_ingredient trim m') ingredients slots_read.
Proof.
  revert ingredients.
  induction slots_read as [|i slots_read IH]; intros ingredients Hsame; simpl;
    [done|].
  rewrite Hsame by apply list_elem_of_here. apply IH.
  intros j acc Hj. apply Hsame. by apply list_elem_of_further.
Qed.

(** X17. The ingredient list has one line per slot from 1 to 20 whose
    ingredient is present and not blank, so at most twenty lines, and none
    for a record without such a slot.  It depends on the record only
    through the ingredient and measure members of these twenty slots,
    a [null] member counting as a missing one. *)
Theorem getIngredients_lines (m : IMeal) :
  List.length (getIngredients trim m)
    = List.length (filter (λ i, listed trim m i = true) (seq 1 20)) ∧
  (List.length (getIngredients trim m) ≤ 20)%nat ∧
  ((∀ i, (1 ≤ i ≤ 20)%nat → listed trim m i = false) →
   getIngredients trim m = []) ∧
  (∀ m',
     (∀ i, (1 ≤ i ≤ 20)%nat →
        member m ("strIngredient" +:+ pretty i)
          = member m' ("strIngredient" +:+ pretty i) ∧
        member m ("strMeasure" +:+ pretty i)
          = member m' ("strMeasure" +:+ pretty i)) →
     getIngredients trim m = getIngredients trim m').
Proof.
  assert (Hlen : List.length (getIngredients trim m)
                 = List.length (filter (λ i, listed trim m i = true) (seq 1 20))).
  { unfold getIngredients. by rewrite getIngredients_fold_length. }
  split; [done|]. split; [|split].
  - rewrite Hlen.
    etransitivity; [apply length_filter|]. by rewrite length_seq.
  - intros Hnone. apply nil_length_inv. rewrite Hlen.
    rewrite filter_drops_all; [done|].
    apply Forall_forall. intros i Hi%elem_of_seq. rewrite Hnone by lia. done.
  - intros m' Hsame. unfold getIngredients. apply getIngredients_fold_ext.
    intros i acc Hi%elem_of_seq. unfold push_ingredient.
    destruct (Hsame i) as [-> ->]; [lia|]. done.
Qed.

End IngredientsFacts.

Section RecipeDetailSamples.
Import RecipeDetail.

Lemma getIngredients_lines_witness :
  getIngredients trim_spaces Api.brown_stew = [] ∧
  getIngredients trim_spaces pancakes
    = getIngredients trim_spaces
        (mkMeal "52854" "Pancakes" None "Dessert" "American" "Mix and fry."
           "pancakes.jpg" None ""
           {[ "strIngredient1" := Some "Flour"; "strMeasure1" := Some "100g ";
              "strIngredient2" := Some "  "; "strMeasure2" := Some "1 tbsp";
              "strIngredient3" := Some "Eggs"; "strMeasure4" := Some "2 tsp" ]}
           None).
Proof.
  split.
  - apply (proj1 (proj2 (proj2 (getIngredients_lines trim_spaces Api.brown_stew)))).
    intros i Hi. reflexivity.
  - apply (proj2 (proj2 (proj2 (getIngredients_lines trim_spaces pancakes)))).
    intros i [Hlo Hhi].
    do 21 (destruct i as [|i]; [first [lia | split; reflexivity]|]). lia.
Defined.

Lemma page_after_lookup_witness :
  fst (page Api.healthy_backend "52940" []) = Detail Api.brown_stew ∧
  fst (page Api.no_results_backend "52940" [])
    = ErrorMessage "Recipe with ID 52940 not found.".
Proof.
  split.
  - apply (proj1 (proj2 (page_after_lookup Api.healthy_backend "52940" []))).
    reflexivity.
  - apply (proj2 (proj2 (proj2 (proj2
             (page_after_lookup Api.no_results_backend "52940" []))))).
    reflexivity.
Defined.

End RecipeDetailSamples.

Section NavigationMoreSamples.
Import Navigation.

Lemma back_leaves_detail_routes_witness :
  is_detail "#/search" = false.
Proof.
  apply (proj1 (back_leaves_detail_routes ""
                  [Navigate "#/search"; Navigate "#/recipe/52940";
                   Navigate "#/recipe/52854"]) "#/search").
  reflexivity.
Defined.

Lemma goBack_after_detail_chain_witness :
  goBack (foldl (λ s d, navigate d s) (initial "#/favourites")
            ["#/recipe/52940"; "#/recipe/52854"; "#/recipe/52772"])
    = mkNav "#/favourites" None "#/favourites".
Proof.
  apply (goBack_after_detail_chain (initial "#/favourites") "#/recipe/52940"
           ["#/recipe/52854"; "#/recipe/52772"]).
  - discriminate.
  - reflexivity.
  - reflexivity.
  - repeat constructor.
Defined.

End NavigationMoreSamples.
